(** * The save-file harness [test-python-parser.py], embedded and verified

    [parse_sav_file] reads a save image, asks the exporter package for the
    raw party and box slots, decodes every non-empty slot, groups the box
    records by thirty consumed slots and serialises the outcome.

    The embedding follows the Python text statement by statement.  Printing
    is kept as a trace of messages (one constructor per [print] statement),
    exceptions as an explicit [result], and the objects imported from the
    exporter package ([SaveFile], the extractors, the parsers and
    [GameDataManager]) as the fields of a class of collaborators. *)

From Stdlib Require Import ZArith String Ascii.
From stdpp Require Import prelude.

Open Scope Z_scope.
Open Scope nat_scope.

(** ** Values *)

(** Outcome of a Python call: a value, or a raised [Exception].  The
    harness catches [Exception] only; what lies outside it (an interrupt,
    an exit) is not modelled, and [print] is taken not to raise. *)
Inductive result (E A : Type) : Type :=
| Ok (a : A)
| Raise (e : E).
Arguments Ok {E A} a.
Arguments Raise {E A} e.

(** An element of [pokemon_in_party] or [pokemon_in_storage].  The harness
    only ever tests such a value for truth and hands it to a parser, so two
    shapes matter: a bytes object, and [None]. *)
Inductive RawSlot : Type :=
| SlotNone
| SlotBytes (data : list Z).

(** Python's truth value: [None] and the empty bytes object are false, every
    other bytes object is true whatever its contents. *)
Definition truthy (p : RawSlot) : bool :=
  match p with
  | SlotNone => false
  | SlotBytes [] => false
  | SlotBytes (_ :: _) => true
  end.

(** The six named components of [pkmn.ivs] and [pkmn.evs]. *)
Record Stats : Type := {
  hp : Z;
  attack : Z;
  defense : Z;
  special_attack : Z;
  special_defense : Z;
  speed : Z
}.

(** The attributes of a parsed Pokemon the harness reads. *)
Record Pokemon : Type := {
  species_id : Z;
  level : Z;
  ability_index : Z;
  has_ha_flag : bool;
  nature : Z;
  move_ids : list Z;
  held_item_id : Z;
  ivs : Stats;
  evs : Stats;
  nickname : string;
  gender : option string;      (* [getattr(pkmn, 'gender', None)] *)
  is_egg_flag : bool
}.

(** The dictionaries built for JSON: one record per dictionary literal, one
    field per key. *)
Module Json.
Record pokemon : Type := {
  species_id : Z;
  name : string;
  level : Z;
  ability_index : Z;
  ability_name : string;
  nature : Z;
  move_ids : list Z;
  move_names : list string;
  held_item_id : Z;
  held_item_name : string;
  ivs : Stats;
  evs : Stats;
  nickname : string;
  gender : option string;
  is_egg : bool;
  has_hidden_ability : bool
}.

Record result : Type := {
  party : list pokemon;
  boxes : list (list pokemon);
  total_pokemon : nat
}.
End Json.

(** The nine debugging lines printed for the first party member. *)
Inductive DebugLine : Type :=
| DbgProperties | DbgAbility | DbgNature | DbgMoves | DbgGender
| DbgItem | DbgStats | DbgIvAttributes | DbgEvAttributes.

(** One constructor per [print] statement, carrying the interpolated values.
    [Exn] is the type of the exception objects. *)
Section Messages.
Context {Exn : Type}.

Inductive Msg : Type :=
| MParsing (sav_path : string)
| MFileSize (n : nat)
| MLoaded
| MExtractParty
| MPartySlots (n : nat)
| MPartySlot (i : nat) (species lvl : Z)
| MPartyError (i : nat) (e : Exn)
| MExtractBox
| MBoxSlots (n : nat)
| MBoxPokemon (count : nat) (species lvl : Z)
| MBoxError (i : nat) (e : Exn)
| MBoxComplete (idx n : nat)
| MFinalBox (n : nat)
| MSuccess
| MSummary
| MSummaryParty (n : nat)
| MSummaryBox (n : nat)
| MSummaryTotal (n : nat)
| MPartyHeader
| MPartyEntry (pos : nat) (species_name : string) (lvl : Z)
| MDebug (line : DebugLine) (pkmn : Pokemon)
| MBoxHeader
| MBoxIndex (box_idx : nat)
| MBoxEntry (pos : nat) (species_name : string) (lvl : Z)
| MJsonRuleBlank
| MJsonTitle
| MJsonRule
| MJson (r : Json.result)
| MFatal (e : Exn).
End Messages.
Arguments Msg Exn : clear implicits.

(** ** Collaborators

    What [parse_sav_file] imports from the exporter package and from the
    file system.  Each call may raise.  Constructing an extractor and
    reading its property happen between the same two [print] statements and
    are one field here; the parser constructors are folded into the same
    field for the same reason. *)
Class Collaborators (Exn : Type) : Type := {
  Save : Type;
  Block : Type;
  DataManager : Type;
  read_file : string -> result Exn (list Z);
  SaveFile : list Z -> result Exn Save;
  active_block : Save -> Block;
  expanded_block : Save -> Block;
  pokemon_in_party : Block -> result Exn (list RawSlot);
  pokemon_in_storage : Block -> Block -> result Exn (list RawSlot);
  party_parse : RawSlot -> result Exn Pokemon;
  box_parse : RawSlot -> result Exn Pokemon;
  GameDataManager : result Exn DataManager;
  get_species_name : DataManager -> Z -> result Exn string;
  get_move_name : DataManager -> Z -> result Exn string;
  get_ability_name : DataManager -> Z -> string -> bool -> result Exn string;
  get_item_name : DataManager -> Z -> result Exn string
}.

(** ** Effects: a trace of printed lines over an exception result *)

(** A computation prints some lines, then returns or raises. *)
Definition M (Exn A : Type) : Type := list (Msg Exn) * result Exn A.

Section Effects.
Context {Exn : Type}.
Implicit Types A B : Type.

Definition m_ret {A} (a : A) : M Exn A := ([], Ok a).
Definition m_bind {A B} (m : M Exn A) (f : A -> M Exn B) : M Exn B :=
  match m with
  | (t1, Ok a) => let '(t2, r) := f a in (t1 ++ t2, r)
  | (t1, Raise e) => (t1, Raise e)
  end.

(** [print(...)].  Writing a line is taken to succeed.  In the source the
    success line of a slot is printed inside the slot's [try], after the
    [append]: were that [print] to raise, the record would stay and the
    slot's error line would be printed in place of the success line. *)
Definition tell (m : Msg Exn) : M Exn unit := ([m], Ok tt).
(** A call into a collaborator. *)
Definition call {A} (r : result Exn A) : M Exn A := ([], r).

(** [try: body except Exception as e: handler(e)] *)
Definition try_except {A} (body : M Exn A) (handler : Exn -> M Exn A) : M Exn A :=
  match body with
  | (t1, Ok a) => (t1, Ok a)
  | (t1, Raise e) => let '(t2, r) := handler e in (t1 ++ t2, r)
  end.

(** [raise] inside a handler: the caught exception goes on. *)
Definition reraise {A} (e : Exn) : M Exn A := ([], Raise e).
End Effects.

Notation "'let*' x ':=' m 'in' k" := (m_bind m (fun x => k))
  (at level 10, x binder, m at level 200, k at level 200,
   format "'[v' 'let*'  x  ':='  m  'in' '/' k ']'").

Section Loops.
Context {Exn : Type}.

(** [for i, x in enumerate(xs): body], threading the variables the body
    assigns as the loop state [s]; [i] is the index of the head of [xs]. *)
Fixpoint for_enumerate {A St} (body : nat -> A -> St -> M Exn St)
    (i : nat) (xs : list A) (s : St) : M Exn St :=
  match xs with
  | [] => m_ret s
  | x :: rest =>
      let* s1 := body i x s in
      for_enumerate body (S i) rest s1
  end.

(** [[f(x) for x in xs]], stopping at the first exception. *)
Fixpoint map_m {A B} (f : A -> M Exn B) (xs : list A) : M Exn (list B) :=
  match xs with
  | [] => m_ret []
  | x :: rest =>
      let* y := f x in
      let* ys := map_m f rest in
      m_ret (y :: ys)
  end.
End Loops.

(** ** The harness *)

(** [str.lower()] on the ASCII letters; other characters are left as they
    are, where Python also lower-cases the capitals outside ASCII. *)
Definition lower_ascii (c : ascii) : ascii :=
  let n := nat_of_ascii c in
  if (65 <=? n) && (n <=? 90) then ascii_of_nat (n + 32) else c.

Fixpoint lower (s : string) : string :=
  match s with
  | EmptyString => EmptyString
  | String c rest => String (lower_ascii c) (lower rest)
  end.

(** The variables of the box loop: [boxes], [current_box], [pokemon_count]. *)
Record BoxState : Type := {
  boxes : list (list Pokemon);
  current_box : list Pokemon;
  pokemon_count : nat
}.

Section Harness.
Context {Exn : Type} {C : Collaborators Exn}.

(** Lines 38-44: the body of the party loop; the loop state is [party]. *)
Definition party_body (i : nat) (p : RawSlot) (party : list Pokemon)
    : M Exn (list Pokemon) :=
  if truthy p then
    try_except
      (let* pokemon := call (party_parse p) in
       let party' := party ++ [pokemon] in
       let* _ := tell (MPartySlot i (species_id pokemon) (level pokemon)) in
       m_ret party')
      (fun e =>
       let* _ := tell (MPartyError i e) in
       m_ret party)
  else m_ret party.

(** Lines 36-44. *)
Definition party_loop (party_raw : list RawSlot) : M Exn (list Pokemon) :=
  for_enumerate party_body 0 party_raw [].

(** Lines 59-73: the body of the box loop. *)
Definition box_body (i : nat) (p : RawSlot) (st : BoxState) : M Exn BoxState :=
  let* current_box' :=
    if truthy p then
      try_except
        (let* pokemon := call (box_parse p) in
         let current_box' := current_box st ++ [pokemon] in
         let* _ := tell (MBoxPokemon (pokemon_count st)
                           (species_id pokemon) (level pokemon)) in
         m_ret current_box')
        (fun e =>
         let* _ := tell (MBoxError i e) in
         m_ret (current_box st))
    else m_ret (current_box st) in
  let pokemon_count' := pokemon_count st + 1 in
  if pokemon_count' mod 30 =? 0 then
    let boxes' := boxes st ++ [current_box'] in
    let* _ := tell (MBoxComplete (length boxes' - 1) (length current_box')) in
    m_ret {| boxes := boxes'; current_box := [];
             pokemon_count := pokemon_count' |}
  else
    m_ret {| boxes := boxes st; current_box := current_box';
             pokemon_count := pokemon_count' |}.

(** Lines 75-78: the last box is added only if it has Pokemon. *)
Definition final_box (st : BoxState) : M Exn (list (list Pokemon)) :=
  match current_box st with
  | [] => m_ret (boxes st)
  | _ :: _ =>
      let boxes' := boxes st ++ [current_box st] in
      let* _ := tell (MFinalBox (length (current_box st))) in
      m_ret boxes'
  end.

(** Lines 54-78. *)
Definition box_loop (box_raw : list RawSlot) : M Exn (list (list Pokemon)) :=
  let* st := for_enumerate box_body 0 box_raw
               {| boxes := []; current_box := []; pokemon_count := 0 |} in
  final_box st.

(** Lines 89-104: only the first party member is shown ([break]). *)
Definition show_party (dm : DataManager) (party : list Pokemon) : M Exn unit :=
  match party with
  | [] => m_ret tt
  | pkmn :: _ =>
      let* _ := tell MPartyHeader in
      let* species_name := call (get_species_name dm (species_id pkmn)) in
      let* _ := tell (MPartyEntry (0 + 1) species_name (level pkmn)) in
      let* _ := tell (MDebug DbgProperties pkmn) in
      let* _ := tell (MDebug DbgAbility pkmn) in
      let* _ := tell (MDebug DbgNature pkmn) in
      let* _ := tell (MDebug DbgMoves pkmn) in
      let* _ := tell (MDebug DbgGender pkmn) in
      let* _ := tell (MDebug DbgItem pkmn) in
      let* _ := tell (MDebug DbgStats pkmn) in
      let* _ := tell (MDebug DbgIvAttributes pkmn) in
      let* _ := tell (MDebug DbgEvAttributes pkmn) in
      m_ret tt
  end.

(** Lines 111-113. *)
Definition show_box_entry (dm : DataManager) (i : nat) (pkmn : Pokemon) (_ : unit)
    : M Exn unit :=
  let* species_name := call (get_species_name dm (species_id pkmn)) in
  tell (MBoxEntry (i + 1) species_name (level pkmn)).

(** Lines 109-113. *)
Definition show_box (dm : DataManager) (box_idx : nat) (box : list Pokemon) (_ : unit)
    : M Exn unit :=
  match box with
  | [] => m_ret tt
  | _ :: _ =>
      let* _ := tell (MBoxIndex box_idx) in
      for_enumerate (show_box_entry dm) 0 box tt
  end.

(** [any(boxes)]: some box is a non-empty list. *)
Definition any_box (boxes : list (list Pokemon)) : bool :=
  existsb (fun box => match box with [] => false | _ :: _ => true end) boxes.

(** Lines 106-113. *)
Definition show_boxes (dm : DataManager) (boxes : list (list Pokemon)) : M Exn unit :=
  if any_box boxes then
    let* _ := tell MBoxHeader in
    for_enumerate (show_box dm) 0 boxes tt
  else m_ret tt.

(** Lines 116-161. *)
Definition pokemon_to_dict (dm : DataManager) (pkmn : Pokemon) : M Exn Json.pokemon :=
  let* move_names :=
    map_m (fun move_id => call (get_move_name dm move_id))
          (filter (fun move_id => (0 < move_id)%Z) (move_ids pkmn)) in
  let* species_name := call (get_species_name dm (species_id pkmn)) in
  let* ability_name :=
    call (get_ability_name dm (ability_index pkmn) species_name (has_ha_flag pkmn)) in
  let* item_name := call (get_item_name dm (held_item_id pkmn)) in
  let* species_name' := call (get_species_name dm (species_id pkmn)) in
  m_ret {|
    Json.species_id := species_id pkmn;
    Json.name := lower species_name';
    Json.level := level pkmn;
    Json.ability_index := ability_index pkmn;
    Json.ability_name := ability_name;
    Json.nature := nature pkmn;
    Json.move_ids := move_ids pkmn;
    Json.move_names := move_names;
    Json.held_item_id := held_item_id pkmn;
    Json.held_item_name := item_name;
    Json.ivs := {|
      hp := hp (ivs pkmn);
      attack := attack (ivs pkmn);
      defense := defense (ivs pkmn);
      special_attack := special_attack (ivs pkmn);
      special_defense := special_defense (ivs pkmn);
      speed := speed (ivs pkmn) |};
    Json.evs := {|
      hp := hp (evs pkmn);
      attack := attack (evs pkmn);
      defense := defense (evs pkmn);
      special_attack := special_attack (evs pkmn);
      special_defense := special_defense (evs pkmn);
      speed := speed (evs pkmn) |};
    Json.nickname := nickname pkmn;
    Json.gender := gender pkmn;
    Json.is_egg := is_egg_flag pkmn;
    Json.has_hidden_ability := has_ha_flag pkmn
  |}.

(** Lines 20-185: the body of the outer [try]. *)
Definition parse_body (sav_path : string) : M Exn Json.result :=
  let* raw := call (read_file sav_path) in
  let* _ := tell (MFileSize (length raw)) in
  let* save := call (SaveFile raw) in
  let* _ := tell MLoaded in
  let* _ := tell MExtractParty in
  let* party_raw := call (pokemon_in_party (active_block save)) in
  let* _ := tell (MPartySlots (length party_raw)) in
  let* party := party_loop party_raw in
  let* _ := tell MExtractBox in
  let* box_raw :=
    call (pokemon_in_storage (active_block save) (expanded_block save)) in
  let* _ := tell (MBoxSlots (length box_raw)) in
  let* boxes := box_loop box_raw in
  let* _ := tell MSuccess in
  let* _ := tell MSummary in
  let* _ := tell (MSummaryParty (length party)) in
  let* _ := tell (MSummaryBox (sum_list (map length boxes))) in
  let* _ := tell (MSummaryTotal (length party + sum_list (map length boxes))) in
  let* data_manager := call GameDataManager in
  let* _ := show_party data_manager party in
  let* _ := show_boxes data_manager boxes in
  let* party_dicts := map_m (pokemon_to_dict data_manager) party in
  let* boxes_dicts := map_m (map_m (pokemon_to_dict data_manager)) boxes in
  let result := {|
    Json.party := party_dicts;
    Json.boxes := boxes_dicts;
    Json.total_pokemon := length party + sum_list (map length boxes) |} in
  let* _ := tell MJsonRuleBlank in
  let* _ := tell MJsonTitle in
  let* _ := tell MJsonRule in
  let* _ := tell (MJson result) in
  m_ret result.

(** Lines 16-189. *)
Definition parse_sav_file (sav_path : string) : M Exn Json.result :=
  let* _ := tell (MParsing sav_path) in
  try_except (parse_body sav_path)
    (fun e =>
     let* _ := tell (MFatal e) in
     reraise e).
End Harness.


(** * The exporter package, modelled from the specification

    The package that supplies the extractors and the parsers is not among
    the sources.  Sections 4.2 and 4.3 of the specification describe it;
    the definitions below follow its words.  Whatever the specification
    leaves to the save format (byte offsets inside a substructure, the
    permutation table) is a field of [Format]. *)

(** Modelled from the spec: the SlotExtractor's emptiness test (the
    extractor is missing from the sources); "a slot is empty if it is
    entirely zero bytes". *)
Definition is_empty_window (w : list Z) : bool := forallb (Z.eqb 0) w.

(** Modelled from the spec: the SlotExtractor "skipping/marking empty
    slots" (the extractor is missing from the sources).  An empty slot
    keeps its place in the sequence, since it counts toward the box
    boundary, and is marked with the value the harness tests as false. *)
Definition mark_slot (w : list Z) : RawSlot :=
  if is_empty_window w then SlotNone else SlotBytes w.

(** Modelled from the spec: [party_slots] of the SlotExtractor (missing
    from the sources), an ordered sequence of at most six raw slots, some
    possibly empty, given the fixed-size byte ranges of the party region in
    order. *)
Definition party_slots (windows : list (list Z)) : list RawSlot :=
  map mark_slot (take 6 windows).

(** Modelled from the spec: the two per-slot failures of the RecordDecoder
    (section 4.3; the parser classes are missing from the sources). *)
Inductive DecodeError : Type := Checksum | Corrupt.

(** Modelled from the spec: the four substructures of the encrypted
    payload (section 4.3; the record layout is missing from the sources). *)
Inductive Substructure : Type := Growth | Attack | Condition | Miscellaneous.

(** Modelled from the spec: a raw record after slicing (the record layout
    is missing from the sources): the two seeds and the stored checksum of
    the unencrypted header, the rest of the header, and the encrypted
    payload as bytes. *)
Record RawRecord : Type := {
  seed1 : Z;
  seed2 : Z;
  stored_checksum : Z;
  header : list Z;
  payload : list Z
}.

(** Modelled from the spec: what section 4.3 leaves to the save format
    (the format tables are missing from the sources). *)
Record Format : Type := {
  (** physical position (0 to 3) of a substructure, by seed modulo 24 *)
  order_table : Z -> Substructure -> nat;
  (** byte offset of the packed IV word inside Miscellaneous *)
  iv_word_offset : nat;
  read_level : list Z -> Z;
  read_nickname : list Z -> string;
  read_species : list Z -> Z;
  read_held_item : list Z -> Z;
  read_moves : list Z -> list Z;
  read_evs : list Z -> Stats;
  two_abilities : Z -> bool
}.

(** A byte value. *)
Definition is_byte (b : Z) : Prop := (0 <= b < 256)%Z.

(** The RecordDecoder of section 4.3, steps 1 to 6; the parser classes are
    missing from the sources.  Words are little-endian. *)
Section RecordDecoder.
Variable fmt : Format.
Local Open Scope Z_scope.

(** Modelled from the spec: step 1 of the missing decoder, "the XOR key
    as the bitwise XOR of the two stored 32-bit seed values". *)
Definition xor_key (r : RawRecord) : Z := Z.lxor (seed1 r) (seed2 r).

(** Modelled from the spec: byte [j] of a little-endian word, for the
    word-aligned key of the missing decoder. *)
Definition key_byte (key : Z) (j : nat) : Z :=
  Z.land (Z.shiftr key (8 * Z.of_nat j)) 255.

(** Modelled from the spec: step 1 of the missing decoder, the "key
    value repeated across the payload, word-aligned". *)
Definition decrypt (key : Z) (bytes : list Z) : list Z :=
  imap (fun i b => Z.lxor b (key_byte key (i mod 4))) bytes.

(** Modelled from the spec: "all 16-bit words" of the decrypted payload,
    for the checksum of the missing decoder. *)
Fixpoint words16 (bytes : list Z) : list Z :=
  match bytes with
  | lo :: hi :: rest => (lo + 256 * hi) :: words16 rest
  | [lo] => [lo]
  | [] => []
  end.

(** Modelled from the spec: the "wrapping add" of the missing decoder's
    16-bit checksum. *)
Definition wrapping_add16 (a b : Z) : Z := (a + b) mod 65536.

(** Modelled from the spec: step 3 of the missing decoder, "sum all
    16-bit words of the decrypted payload (wrapping add)". *)
Definition checksum16 (plain : list Z) : Z :=
  foldl wrapping_add16 0 (words16 plain).

(** Modelled from the spec: step 2 of the missing decoder, the quarter
    of the decrypted payload that holds [s], by seed modulo 24. *)
Definition substructure (r : RawRecord) (plain : list Z) (s : Substructure)
    : list Z :=
  let size := (length plain / 4)%nat in
  take size (drop (size * order_table fmt (seed1 r mod 24) s) plain).

(** Modelled from the spec: reading the decrypted bytes, for the packed
    word of the missing decoder. *)
Definition byte_at (bytes : list Z) (i : nat) : Z := default 0 (bytes !! i).

(** Modelled from the spec: the "packed 32-bit word" of Miscellaneous,
    read by the missing decoder. *)
Definition word32_at (bytes : list Z) (off : nat) : Z :=
  byte_at bytes off + 256 * byte_at bytes (off + 1)
  + 65536 * byte_at bytes (off + 2) + 16777216 * byte_at bytes (off + 3).

(** Modelled from the spec: step 4 of the missing decoder, the six
    5-bit IV fields in the order hp, attack, defense, speed,
    special_attack, special_defense, "via explicit shift+mask". *)
Definition unpack_ivs (w : Z) : Stats := {|
  hp := Z.land w 31;
  attack := Z.land (Z.shiftr w 5) 31;
  defense := Z.land (Z.shiftr w 10) 31;
  speed := Z.land (Z.shiftr w 15) 31;
  special_attack := Z.land (Z.shiftr w 20) 31;
  special_defense := Z.land (Z.shiftr w 25) 31
|}.

(** Modelled from the spec: the "one egg-flag bit" after the thirty IV
    bits, read by the missing decoder. *)
Definition egg_bit (w : Z) : bool := Z.testbit w 30.

(** Modelled from the spec: the "one hidden-ability-flag bit", read by
    the missing decoder. *)
Definition hidden_ability_bit (w : Z) : bool := Z.testbit w 31.

(** Modelled from the spec: the "expected numeric range" test of the
    missing decoder. *)
Definition within (lo hi x : Z) : bool := (lo <=? x) && (x <=? hi).

(** Modelled from the spec: the range test of the missing decoder on a
    stat block, IVs in 0-31 and EVs in 0-252. *)
Definition stats_within (lo hi : Z) (s : Stats) : bool :=
  within lo hi (hp s) && within lo hi (attack s) && within lo hi (defense s)
  && within lo hi (special_attack s) && within lo hi (special_defense s)
  && within lo hi (speed s).

(** Modelled from the spec: step 5 of the missing decoder, the low bit
    of the other seed when the species has two abilities, the third
    ability when the hidden-ability flag is set. *)
Definition derive_ability_index (r : RawRecord) (species : Z) (hidden : bool) : Z :=
  if hidden then 2
  else if two_abilities fmt species then Z.land (seed2 r) 1
  else 0.

(** Modelled from the spec: [decode] of the missing RecordDecoder.
    Decrypt, validate the checksum ([Checksum] on mismatch), locate the
    substructures, unpack, reject out-of-range fields ([Corrupt]) and
    produce the record; nature is the first seed modulo 25. *)
Definition decode (r : RawRecord) : result DecodeError Pokemon :=
  let plain := decrypt (xor_key r) (payload r) in
  if negb (checksum16 plain =? stored_checksum r) then Raise Checksum
  else
    let growth := substructure r plain Growth in
    let attacks := substructure r plain Attack in
    let condition := substructure r plain Condition in
    let misc := substructure r plain Miscellaneous in
    let w := word32_at misc (iv_word_offset fmt) in
    let species := read_species fmt growth in
    if negb (stats_within 0 31 (unpack_ivs w)
             && stats_within 0 252 (read_evs fmt condition))
    then Raise Corrupt
    else Ok {|
      species_id := species;
      level := read_level fmt (header r);
      ability_index := derive_ability_index r species (hidden_ability_bit w);
      has_ha_flag := hidden_ability_bit w;
      nature := seed1 r mod 25;
      move_ids := read_moves fmt attacks;
      held_item_id := read_held_item fmt growth;
      ivs := unpack_ivs w;
      evs := read_evs fmt condition;
      nickname := read_nickname fmt (header r);
      gender := None;
      is_egg_flag := egg_bit w
    |}.

(** Modelled from the spec: "mutating any single byte of a valid
    encrypted payload (without recomputing checksum)", section 8; the
    record layout is missing from the sources. *)
Definition mutate_payload (r : RawRecord) (i : nat) (b : Z) : RawRecord := {|
  seed1 := seed1 r;
  seed2 := seed2 r;
  stored_checksum := stored_checksum r;
  header := header r;
  payload := <[i := b]> (payload r)
|}.
End RecordDecoder.

(** * Reading the loops off the slot sequence

    The definitions of this part are not in the source: they say, as plain
    functions of the slot sequence, what the loops are then proved to
    compute. *)

(** Slots [30 * k] to [30 * k + 29] of the flat sequence. *)
Definition chunk {A} (k : nat) (slots : list A) : list A :=
  take 30 (drop (30 * k) slots).

Section Readings.
Context {Exn : Type} {C : Collaborators Exn}.

(** The record a slot puts into the output: none for a false slot, none
    for a slot whose parse raises. *)
Definition decoded (parse : RawSlot -> result Exn Pokemon) (p : RawSlot)
    : option Pokemon :=
  if truthy p then
    match parse p with
    | Ok pokemon => Some pokemon
    | Raise _ => None
    end
  else None.

(** The line a party slot prints. *)
Definition party_line (i : nat) (p : RawSlot) : list (Msg Exn) :=
  if truthy p then
    match party_parse p with
    | Ok pokemon => [MPartySlot i (species_id pokemon) (level pokemon)]
    | Raise e => [MPartyError i e]
    end
  else [].

(** The state change of one pass through the box loop body. *)
Definition box_step (p : RawSlot) (st : BoxState) : BoxState :=
  let cur := current_box st ++ option_list (decoded box_parse p) in
  if (pokemon_count st + 1) mod 30 =? 0 then
    {| boxes := boxes st ++ [cur]; current_box := [];
       pokemon_count := pokemon_count st + 1 |}
  else
    {| boxes := boxes st; current_box := cur;
       pokemon_count := pokemon_count st + 1 |}.

(** The line a box slot prints for itself. *)
Definition box_line (i : nat) (p : RawSlot) (st : BoxState) : list (Msg Exn) :=
  if truthy p then
    match box_parse p with
    | Ok pokemon =>
        [MBoxPokemon (pokemon_count st) (species_id pokemon) (level pokemon)]
    | Raise e => [MBoxError i e]
    end
  else [].

(** The line printed when the slot closes a box. *)
Definition boundary_line (p : RawSlot) (st : BoxState) : list (Msg Exn) :=
  if (pokemon_count st + 1) mod 30 =? 0 then
    [MBoxComplete (length (boxes st))
       (length (current_box st ++ option_list (decoded box_parse p)))]
  else [].

(** The variables of the box loop before its first pass (lines 54-56). *)
Definition box_init : BoxState :=
  {| boxes := []; current_box := []; pokemon_count := 0 |}.

(** The records of box [k]: what slots [30 * k .. 30 * k + 29] decode to. *)
Definition group (k : nat) (slots : list RawSlot) : list Pokemon :=
  omap (decoded box_parse) (chunk k slots).

(** The box-groups read off the slot sequence: one group per full run of
    thirty slots, then the rest if it decoded to anything. *)
Definition groups_of (slots : list RawSlot) : list (list Pokemon) :=
  let q := length slots / 30 in
  let rest := omap (decoded box_parse) (drop (30 * q) slots) in
  map (fun k => group k slots) (seq 0 q)
  ++ match rest with [] => [] | _ :: _ => [rest] end.
End Readings.

(** Each component of a stat block lies between [lo] and [hi]. *)
Definition stats_in (lo hi : Z) (s : Stats) : Prop :=
  (lo <= hp s <= hi /\ lo <= attack s <= hi /\ lo <= defense s <= hi
   /\ lo <= special_attack s <= hi /\ lo <= special_defense s <= hi
   /\ lo <= speed s <= hi)%Z.

(** The plain sum of a sequence of words. *)
Definition sum_words (ws : list Z) : Z := foldr Z.add 0%Z ws.

(** The weight of byte [i] in its little-endian 16-bit word. *)
Definition byte_weight (i : nat) : Z := if Nat.even i then 1%Z else 256%Z.

(** * A small world to run the model in

    A synthetic package: two files, a one-byte stamp for the section check,
    fixed slot sequences, and a parser that slices a 64-byte slot and calls
    [decode] with a format in the style of the third-generation games. *)
Module Demo.
Local Open Scope Z_scope.

Inductive Error : Type :=
| FileNotFound
| CorruptImage
| NotARecord
| Decode (e : DecodeError).

Definition orders : list (list Substructure) :=
  let G := Growth in let A := Attack in
  let E := Condition in let M := Miscellaneous in
  [ [G;A;E;M]; [G;A;M;E]; [G;E;A;M]; [G;E;M;A]; [G;M;A;E]; [G;M;E;A];
    [A;G;E;M]; [A;G;M;E]; [A;E;G;M]; [A;E;M;G]; [A;M;G;E]; [A;M;E;G];
    [E;G;A;M]; [E;G;M;A]; [E;A;G;M]; [E;A;M;G]; [E;M;G;A]; [E;M;A;G];
    [M;G;A;E]; [M;G;E;A]; [M;A;G;E]; [M;A;E;G]; [M;E;G;A]; [M;E;A;G] ].

Definition same_substructure (a b : Substructure) : bool :=
  match a, b with
  | Growth, Growth | Attack, Attack | Condition, Condition
  | Miscellaneous, Miscellaneous => true
  | _, _ => false
  end.

Fixpoint position (s : Substructure) (order : list Substructure) : nat :=
  match order with
  | [] => 0%nat
  | x :: rest => if same_substructure s x then 0%nat else S (position s rest)
  end.

Definition word16_at (bytes : list Z) (off : nat) : Z :=
  byte_at bytes off + 256 * byte_at bytes (off + 1).

Definition fmt : Format := {|
  order_table k s := position s (nth (Z.to_nat k) orders []);
  iv_word_offset := 4%nat;
  read_level h := byte_at h 0;
  read_nickname h := if byte_at h 1 =? 0 then "PIKA"%string else "BULBA"%string;
  read_species g := word16_at g 0;
  read_held_item g := word16_at g 2;
  read_moves a := [word16_at a 0; word16_at a 2; word16_at a 4; word16_at a 6];
  read_evs c := {|
    hp := byte_at c 0; attack := byte_at c 1; defense := byte_at c 2;
    speed := byte_at c 3; special_attack := byte_at c 4;
    special_defense := byte_at c 5 |};
  two_abilities _ := true
|}.

Definition bytes32 (w : Z) : list Z :=
  [key_byte w 0; key_byte w 1; key_byte w 2; key_byte w 3].

(** A 64-byte slot: seeds, checksum, six header bytes, 48 payload bytes. *)
Definition serialize (r : RawRecord) : list Z :=
  bytes32 (seed1 r) ++ bytes32 (seed2 r)
  ++ [key_byte (stored_checksum r) 0; key_byte (stored_checksum r) 1]
  ++ header r ++ payload r.

Definition slice (data : list Z) : RawRecord := {|
  seed1 := word32_at data 0;
  seed2 := word32_at data 4;
  stored_checksum := word16_at data 8;
  header := take 6 (drop 10 data);
  payload := drop 16 data
|}.

(** A record whose decrypted payload is [plain]. *)
Definition seal (s1 s2 : Z) (hdr plain : list Z) : RawRecord := {|
  seed1 := s1;
  seed2 := s2;
  stored_checksum := checksum16 plain;
  header := hdr;
  payload := decrypt (Z.lxor s1 s2) plain
|}.

(** Species 25, level 12, four moves, all IVs 31; order 0 (seed 312). *)
Definition pikachu : RawRecord :=
  seal 312 54321 [12; 0; 0; 0; 0; 0]
    ([25; 0; 0; 0; 0; 0; 0; 0; 0; 0; 0; 0]
     ++ [84; 0; 98; 0; 45; 0; 39; 0; 0; 0; 0; 0]
     ++ [4; 0; 0; 252; 252; 0; 0; 0; 0; 0; 0; 0]
     ++ [0; 0; 0; 0; 255; 255; 255; 63; 0; 0; 0; 0]).

(** Species 1, level 5; order 23 (seed 71, Miscellaneous first). *)
Definition bulbasaur : RawRecord :=
  seal 71 9 [5; 1; 0; 0; 0; 0]
    ([0; 0; 0; 0; 10; 40; 85; 2; 0; 0; 0; 0]
     ++ [0; 0; 0; 0; 0; 0; 0; 0; 0; 0; 0; 0]
     ++ [33; 0; 45; 0; 0; 0; 0; 0; 0; 0; 0; 0]
     ++ [1; 0; 0; 0; 0; 0; 0; 0; 0; 0; 0; 0]).

(** [pikachu] with payload byte 5 overwritten and the old checksum kept. *)
Definition tampered : RawRecord := mutate_payload pikachu 5 7.

Definition zeros : list Z := replicate 64 0.

Definition parse (p : RawSlot) : result Error Pokemon :=
  match p with
  | SlotNone => Raise NotARecord
  | SlotBytes data =>
      match decode fmt (slice data) with
      | Ok pokemon => Ok pokemon
      | Raise e => Raise (Decode e)
      end
  end.

Definition pikachu_slot : RawSlot := mark_slot (serialize pikachu).
Definition bulbasaur_slot : RawSlot := mark_slot (serialize bulbasaur).
Definition tampered_slot : RawSlot := mark_slot (serialize tampered).
Definition empty_slot : RawSlot := mark_slot zeros.

Definition party_windows : list (list Z) :=
  [zeros; serialize pikachu; zeros; serialize tampered; serialize bulbasaur;
   zeros].

(** 31 slots: Pikachu in slot 2, a damaged record in slot 3, and nothing
    after the first boundary. *)
Definition box_slots : list RawSlot :=
  [empty_slot; empty_slot; pikachu_slot; tampered_slot]
  ++ replicate 27 empty_slot.

(** What the two records decode to. *)
Definition pikachu_pokemon : Pokemon := {|
  species_id := 25; level := 12; ability_index := 1; has_ha_flag := false;
  nature := 12; move_ids := [84; 98; 45; 39]; held_item_id := 0;
  ivs := {| hp := 31; attack := 31; defense := 31; special_attack := 31;
            special_defense := 31; speed := 31 |};
  evs := {| hp := 4; attack := 0; defense := 0; special_attack := 252;
            special_defense := 0; speed := 252 |};
  nickname := "PIKA"; gender := None; is_egg_flag := false
|}.

Definition bulbasaur_pokemon : Pokemon := {|
  species_id := 1; level := 5; ability_index := 1; has_ha_flag := false;
  nature := 21; move_ids := [33; 45; 0; 0]; held_item_id := 0;
  ivs := {| hp := 10; attack := 0; defense := 10; special_attack := 5;
            special_defense := 1; speed := 10 |};
  evs := {| hp := 0; attack := 0; defense := 0; special_attack := 0;
            special_defense := 0; speed := 0 |};
  nickname := "BULBA"; gender := None; is_egg_flag := false
|}.

#[export] Instance world : Collaborators Error := {|
  Save := list Z;
  Block := unit;
  DataManager := unit;
  read_file path :=
    if String.eqb path "demo.sav" then Ok [1; 0; 0]
    else if String.eqb path "corrupt.sav" then Ok [0; 0; 0]
    else Raise FileNotFound;
  SaveFile raw := match raw with 1 :: _ => Ok raw | _ => Raise CorruptImage end;
  active_block _ := tt;
  expanded_block _ := tt;
  pokemon_in_party _ := Ok (party_slots party_windows);
  pokemon_in_storage _ _ := Ok box_slots;
  party_parse := parse;
  box_parse := parse;
  GameDataManager := Ok tt;
  get_species_name _ id :=
    Ok (if id =? 25 then "Pikachu"%string else "Bulbasaur"%string);
  get_move_name _ id := Ok "Move"%string;
  get_ability_name _ idx species hidden := Ok "Static"%string;
  get_item_name _ id := Ok "None"%string
|}.

(** The dictionaries [pokemon_to_dict] builds in this world. *)
Definition pikachu_dict : Json.pokemon := {|
  Json.species_id := 25; Json.name := "pikachu"; Json.level := 12;
  Json.ability_index := 1; Json.ability_name := "Static"; Json.nature := 12;
  Json.move_ids := [84; 98; 45; 39];
  Json.move_names := ["Move"; "Move"; "Move"; "Move"]%string;
  Json.held_item_id := 0; Json.held_item_name := "None";
  Json.ivs := ivs pikachu_pokemon; Json.evs := evs pikachu_pokemon;
  Json.nickname := "PIKA"; Json.gender := None; Json.is_egg := false;
  Json.has_hidden_ability := false
|}.

Definition bulbasaur_dict : Json.pokemon := {|
  Json.species_id := 1; Json.name := "bulbasaur"; Json.level := 5;
  Json.ability_index := 1; Json.ability_name := "Static"; Json.nature := 21;
  Json.move_ids := [33; 45; 0; 0];
  Json.move_names := ["Move"; "Move"]%string;
  Json.held_item_id := 0; Json.held_item_name := "None";
  Json.ivs := ivs bulbasaur_pokemon; Json.evs := evs bulbasaur_pokemon;
  Json.nickname := "BULBA"; Json.gender := None; Json.is_egg := false;
  Json.has_hidden_ability := false
|}.

(** What [parse_sav_file "demo.sav"] returns in this world. *)
Definition demo_result : Json.result := {|
  Json.party := [pikachu_dict; bulbasaur_dict];
  Json.boxes := [[pikachu_dict]];
  Json.total_pokemon := 3
|}.
End Demo.

(** * Reading the printed lines

    Further definitions that are not in the source: the lines of the box
    loop as a function of the slots, and tests on lines and names used to
    state what the harness prints. *)

Section Lines.
Context {Exn : Type} {C : Collaborators Exn}.

(** An "Error parsing ... slot" line of either loop. *)
Definition is_error_line (m : Msg Exn) : bool :=
  match m with
  | MPartyError _ _ | MBoxError _ _ => true
  | _ => false
  end.

(** The lines of the box loop from slot index [i] and state [st] on. *)
Fixpoint box_trace (i : nat) (slots : list RawSlot) (st : BoxState)
    : list (Msg Exn) :=
  match slots with
  | [] => []
  | p :: rest =>
      (box_line i p st ++ boundary_line p st)
      ++ box_trace (S i) rest (box_step p st)
  end.

(** The line printed after the loop, if the open box has Pokemon. *)
Definition final_line (st : BoxState) : list (Msg Exn) :=
  match current_box st with
  | [] => []
  | _ :: _ => [MFinalBox (length (current_box st))]
  end.

(** What the slots after the last boundary decoded to. *)
Definition open_box (slots : list RawSlot) : list Pokemon :=
  omap (decoded box_parse) (drop (30 * (length slots / 30)) slots).
End Lines.

(** An ASCII capital letter. *)
Definition is_upper (c : ascii) : bool :=
  let n := nat_of_ascii c in (65 <=? n) && (n <=? 90).

Fixpoint has_upper (s : string) : bool :=
  match s with
  | EmptyString => false
  | String c rest => is_upper c || has_upper rest
  end.

(** * A world with faults

    The small world again, with a data manager that may fail to load its
    tables and may not know a species. *)
Module Faults.
Inductive Error : Type :=
| Base (e : Demo.Error)
| NoTables
| KeyError (id : Z).

Definition lift {A} (r : result Demo.Error A) : result Error A :=
  match r with
  | Ok a => Ok a
  | Raise e => Raise (Base e)
  end.

Definition world (tables_load : bool) (known : Z -> bool)
    : Collaborators Error := {|
  Save := list Z;
  Block := unit;
  DataManager := unit;
  read_file path := lift (read_file (Collaborators := Demo.world) path);
  SaveFile raw := lift (SaveFile (Collaborators := Demo.world) raw);
  active_block _ := tt;
  expanded_block _ := tt;
  pokemon_in_party _ := Ok (party_slots Demo.party_windows);
  pokemon_in_storage _ _ := Ok Demo.box_slots;
  party_parse p := lift (Demo.parse p);
  box_parse p := lift (Demo.parse p);
  GameDataManager := if tables_load then Ok tt else Raise NoTables;
  get_species_name _ id :=
    if known id
    then Ok (if (id =? 25)%Z then "Pikachu"%string else "Bulbasaur"%string)
    else Raise (KeyError id);
  get_move_name _ id := Ok "Move"%string;
  get_ability_name _ idx species hidden := Ok "Static"%string;
  get_item_name _ id := Ok "None"%string
|}.

(** The tables do not load. *)
Definition no_tables : Collaborators Error := world false (fun _ => true).

(** Only species 25 is known. *)
Definition one_species : Collaborators Error :=
  world true (fun id => (id =? 25)%Z).
End Faults.


(** The "Error parsing save file" line. *)
Definition is_fatal {Exn : Type} (m : Msg Exn) : bool :=
  match m with
  | MFatal _ => true
  | _ => false
  end.

(** A run that prints no "Error parsing save file" line, however it ends. *)
Definition quiet {Exn A : Type} (m : M Exn A) : Prop :=
  Forall (fun line => is_fatal line = false) m.1.

(** * Proofs

    ** Reasoning about the effects *)

Section EffectLemmas.
Context {Exn : Type}.
Implicit Types A B St : Type.

Lemma m_bind_ok {A B} (t : list (Msg Exn)) (a : A) (f : A -> M Exn B) :
  m_bind (t, Ok a) f = (t ++ (f a).1, (f a).2).
Proof. unfold m_bind. by destruct (f a). Qed.

Lemma m_bind_raise {A B} (t : list (Msg Exn)) (e : Exn) (f : A -> M Exn B) :
  m_bind (t, Raise e) f = (t, Raise e).
Proof. done. Qed.

(** A bind that returns has run both halves to their return. *)
Lemma m_bind_inv_ok {A B} (m : M Exn A) (f : A -> M Exn B) t b :
  m_bind m f = (t, Ok b) ->
  exists t1 a t2, m = (t1, Ok a) /\ f a = (t2, Ok b) /\ t = t1 ++ t2.
Proof.
  destruct m as [t1 [a|e]]; simpl; [|discriminate].
  destruct (f a) as [t2 r] eqn:Hf. intros [= <- ->]. by exists t1, a, t2.
Qed.

Lemma try_except_inv_ok {A} (body : M Exn A) t a :
  try_except body (fun e => let* _ := tell (MFatal e) in reraise e) = (t, Ok a) ->
  body = (t, Ok a).
Proof. destruct body as [t1 [x|e]]; simpl; congruence. Qed.

(** [for_enumerate] over a body that always returns: the loop returns the
    left fold of the body's state change. *)
Lemma for_enumerate_returns {A St} (body : nat -> A -> St -> M Exn St)
    (step : A -> St -> St) :
  (forall i x s, (body i x s).2 = Ok (step x s)) ->
  forall xs i s, (for_enumerate body i xs s).2 = Ok (foldl (flip step) s xs).
Proof.
  intros Hbody xs. induction xs as [|x xs IH]; intros i s; [done|].
  simpl. specialize (Hbody i x s). destruct (body i x s) as [t r].
  simpl in Hbody. subst r. rewrite m_bind_ok. simpl. apply IH.
Qed.

Lemma map_m_length {A B} (f : A -> M Exn B) xs t ys :
  map_m f xs = (t, Ok ys) -> length ys = length xs.
Proof.
  revert t ys. induction xs as [|x xs IH]; intros t ys; simpl.
  - by intros [= _ <-].
  - intros H. apply m_bind_inv_ok in H as (t1 & y & t2 & _ & H & _).
    apply m_bind_inv_ok in H as (t3 & ys' & t4 & Hxs & H & _).
    injection H as _ <-. simpl. f_equal. by eapply IH.
Qed.

Lemma map_m_map_m_lengths {A B} (f : A -> M Exn B) xss t yss :
  map_m (map_m f) xss = (t, Ok yss) -> map length yss = map length xss.
Proof.
  revert t yss. induction xss as [|xs xss IH]; intros t yss; simpl.
  - by intros [= _ <-].
  - intros H. apply m_bind_inv_ok in H as (t1 & ys & t2 & Hxs & H & _).
    apply m_bind_inv_ok in H as (t3 & yss' & t4 & Hxss & H & _).
    injection H as _ <-. simpl. f_equal; [by eapply map_m_length | by eapply IH].
Qed.
End EffectLemmas.

(** ** The party loop *)

Section SlotLemmas.
Context {Exn : Type} {C : Collaborators Exn}.

Lemma party_body_eq i p party :
  party_body i p party
  = (party_line i p, Ok (party ++ option_list (decoded party_parse p))).
Proof.
  unfold party_body, party_line, decoded.
  destruct (truthy p); [|by rewrite app_nil_r].
  destruct (party_parse p) as [pokemon|e]; simpl; [done|by rewrite app_nil_r].
Qed.

Lemma party_loop_from i slots party :
  for_enumerate party_body i slots party
  = (mjoin (imap (fun j => party_line (i + j)) slots),
     Ok (party ++ omap (decoded party_parse) slots)).
Proof.
  revert i party. induction slots as [|p slots IH]; intros i party; simpl.
  - by rewrite app_nil_r.
  - rewrite party_body_eq, m_bind_ok, IH. simpl.
    rewrite Nat.add_0_r. f_equal.
    + f_equal. f_equal. apply imap_ext. intros j x _. simpl. f_equal. lia.
    + f_equal. rewrite <-app_assoc. f_equal.
      by destruct (decoded party_parse p).
Qed.

(** The party loop returns, with the decoded records in slot order. *)
Lemma party_loop_eq slots :
  party_loop slots
  = (mjoin (imap party_line slots), Ok (omap (decoded party_parse) slots)).
Proof. unfold party_loop. by rewrite party_loop_from. Qed.
End SlotLemmas.

(** ** The box loop as a grouping of the slot sequence *)

Ltac divmod30 n :=
  pose proof (Nat.div_mod_eq n 30);
  pose proof (Nat.mod_upper_bound n 30 ltac:(lia)).

Lemma chunk_snoc_full {A} (k : nat) (xs : list A) x :
  30 * k + 30 <= length xs -> chunk k (xs ++ [x]) = chunk k xs.
Proof.
  intros Hk. unfold chunk. rewrite drop_app_le by lia.
  apply take_app_le. rewrite length_drop. lia.
Qed.

Lemma chunk_last {A} (k : nat) (xs : list A) :
  length xs <= 30 * k + 30 -> chunk k xs = drop (30 * k) xs.
Proof. intros Hk. unfold chunk. apply take_ge. rewrite length_drop. lia. Qed.

Lemma chunk_beyond {A} (k : nat) (xs : list A) :
  length xs <= 30 * k -> chunk k xs = [].
Proof. intros Hk. unfold chunk. by rewrite drop_ge. Qed.

Lemma chunk_length_full {A} (k : nat) (xs : list A) :
  30 * k + 30 <= length xs -> length (chunk k xs) = 30.
Proof. intros Hk. unfold chunk. rewrite length_take, length_drop. lia. Qed.

Section BoxLemmas.
Context {Exn : Type} {C : Collaborators Exn}.

Lemma box_body_eq i p st :
  box_body i p st = (box_line i p st ++ boundary_line p st, Ok (box_step p st)).
Proof.
  unfold box_body, box_line, boundary_line, box_step, decoded.
  generalize ((pokemon_count st + 1) mod 30 =? 0). intros closes.
  destruct (truthy p); [destruct (box_parse p) as [pokemon|e]|];
    destruct closes; cbn;
    rewrite ?app_nil_r, ?length_app; cbn;
    rewrite ?Nat.add_sub, ?app_nil_r; reflexivity.
Qed.

(** The loop invariant: after the slots [xs], the counter is their number,
    every full run of thirty is a closed box, and the open box holds what
    the slots after the last boundary decoded to. *)
Lemma box_state_after xs :
  foldl (flip box_step) box_init xs
  = {| boxes := map (fun k => group k xs) (seq 0 (length xs / 30));
       current_box := omap (decoded box_parse) (drop (30 * (length xs / 30)) xs);
       pokemon_count := length xs |}.
Proof.
  induction xs as [|x xs IH] using rev_ind; [done|].
  rewrite foldl_app. cbn [foldl]. rewrite IH. unfold flip, box_step.
  cbn [boxes current_box pokemon_count].
  rewrite length_app. cbn [length]. set (n := length xs).
  divmod30 n. divmod30 (n + 1).
  assert (Hold : map (fun k => group k (xs ++ [x])) (seq 0 (n / 30))
                 = map (fun k => group k xs) (seq 0 (n / 30))).
  { apply map_ext_in. intros k Hk%in_seq. unfold group.
    rewrite chunk_snoc_full; [done|]. fold n. lia. }
  assert (Hcur : omap (decoded box_parse) (drop (30 * (n / 30)) (xs ++ [x]))
                 = omap (decoded box_parse) (drop (30 * (n / 30)) xs)
                   ++ option_list (decoded box_parse x)).
  { rewrite drop_app_le by (fold n; lia). by rewrite omap_app. }
  destruct ((n + 1) mod 30 =? 0) eqn:Hmod.
  - apply Nat.eqb_eq in Hmod.
    replace ((n + 1) / 30) with (n / 30 + 1) by lia.
    rewrite seq_app, map_app, Hold. cbn [seq map]. rewrite Nat.add_0_l.
    f_equal.
    + f_equal. f_equal. unfold group. rewrite <-Hcur. f_equal.
      symmetry. apply chunk_last. rewrite length_app. cbn [length]. fold n. lia.
    + rewrite drop_ge; [done|]. rewrite length_app. cbn [length]. fold n. lia.
  - apply Nat.eqb_neq in Hmod.
    replace ((n + 1) / 30) with (n / 30) by lia.
    by rewrite Hold, Hcur.
Qed.

Lemma final_box_value st :
  (final_box (Exn:=Exn) st).2
  = Ok (boxes st ++ match current_box st with [] => [] | _ :: _ => [current_box st] end).
Proof. unfold final_box. destruct (current_box st); simpl; [by rewrite app_nil_r|done]. Qed.

(** The box loop returns, and returns [groups_of]. *)
Lemma box_loop_value slots : (box_loop slots).2 = Ok (groups_of slots).
Proof.
  unfold box_loop.
  pose proof (for_enumerate_returns box_body box_step
                (fun i x s => f_equal snd (box_body_eq i x s)) slots 0 box_init) as H.
  fold box_init. destruct (for_enumerate box_body 0 slots box_init) as [t r].
  cbn [snd] in H. subst r. rewrite m_bind_ok. cbn [snd].
  rewrite final_box_value, box_state_after. reflexivity.
Qed.

Lemma box_loop_returns slots :
  exists t, box_loop slots = (t, Ok (groups_of slots)).
Proof.
  pose proof (box_loop_value slots) as H.
  destruct (box_loop slots) as [t r]. simpl in H. subst r. by exists t.
Qed.
End BoxLemmas.

(** ** The groups, flattened and indexed *)

Section GroupLemmas.
Context {Exn : Type} {C : Collaborators Exn}.

Lemma concat_full_groups (slots : list RawSlot) (q : nat) :
  concat (map (fun k => group k slots) (seq 0 q))
  = omap (decoded box_parse) (take (30 * q) slots).
Proof.
  induction q as [|q IH]; [done|].
  replace (S q) with (q + 1) by lia.
  rewrite seq_app, map_app, concat_app, IH. cbn [seq map concat].
  rewrite app_nil_r, Nat.add_0_l. unfold group, chunk.
  rewrite <-omap_app, take_take_drop. f_equal. f_equal. lia.
Qed.

(** Flattening the groups gives back every decoded record, in slot order. *)
Lemma concat_groups_of (slots : list RawSlot) :
  concat (groups_of slots) = omap (decoded box_parse) slots.
Proof.
  unfold groups_of. rewrite concat_app, concat_full_groups.
  set (q := length slots / 30).
  rewrite <-(take_drop (30 * q) slots) at 3. rewrite omap_app. f_equal.
  destruct (omap (decoded box_parse) (drop (30 * q) slots)); [done|].
  cbn [concat]. by rewrite app_nil_r.
Qed.

Lemma length_groups_of (slots : list RawSlot) :
  length (groups_of slots)
  = length slots / 30
    + match omap (decoded box_parse) (drop (30 * (length slots / 30)) slots) with
      | [] => 0
      | _ :: _ => 1
      end.
Proof.
  unfold groups_of. rewrite length_app, length_map, length_seq. f_equal.
  by destruct (omap _ _).
Qed.

Lemma lookup_groups_of_full (slots : list RawSlot) (k : nat) :
  k < length slots / 30 -> groups_of slots !! k = Some (group k slots).
Proof.
  intros Hk. unfold groups_of.
  rewrite lookup_app_l by (by rewrite length_map, length_seq).
  rewrite list_lookup_fmap, lookup_seq_lt by done. done.
Qed.

(** Group [k] holds exactly what slots [30 * k .. 30 * k + 29] decoded to;
    beyond the last group that is nothing. *)
Lemma lookup_groups_of (slots : list RawSlot) (k : nat) :
  default [] (groups_of slots !! k) = group k slots.
Proof.
  set (n := length slots). divmod30 n.
  destruct (decide (k < n / 30)) as [Hk|Hk].
  { by rewrite lookup_groups_of_full. }
  unfold groups_of. fold n.
  rewrite lookup_app_r by (rewrite length_map, length_seq; lia).
  rewrite length_map, length_seq.
  destruct (decide (k = n / 30)) as [->|Hne].
  - rewrite Nat.sub_diag. unfold group.
    rewrite chunk_last by (fold n; lia).
    by destruct (omap _ _).
  - unfold group. rewrite chunk_beyond by (fold n; lia).
    destruct (omap _ (drop _ _)); [done|].
    destruct (k - n / 30) as [|j] eqn:Hj; [lia|done].
Qed.

Lemma omap_decoded_length (parse : RawSlot -> result Exn Pokemon)
    (slots : list RawSlot) :
  length (omap (decoded parse) slots) <= length slots.
Proof.
  induction slots as [|p slots IH]; [done|].
  cbn. destruct (decoded parse p); cbn; lia.
Qed.

Lemma omap_decoded_all (parse : RawSlot -> result Exn Pokemon)
    (slots : list RawSlot) :
  Forall (fun p => truthy p = true /\ exists pokemon, parse p = Ok pokemon) slots ->
  length (omap (decoded parse) slots) = length slots.
Proof.
  induction 1 as [|p slots [Hp [pokemon Hparse]] _ IH]; [done|].
  cbn. unfold decoded at 1. rewrite Hp, Hparse. cbn. by rewrite IH.
Qed.

Lemma omap_decoded_none (parse : RawSlot -> result Exn Pokemon)
    (slots : list RawSlot) :
  Forall (fun p => truthy p = false) slots -> omap (decoded parse) slots = [].
Proof.
  induction 1 as [|p slots Hp _ IH]; [done|].
  cbn. unfold decoded at 1. by rewrite Hp.
Qed.
End GroupLemmas.

(** ** The marking of empty slots *)

Lemma is_empty_window_true (w : list Z) :
  Forall (fun b => b = 0%Z) w -> is_empty_window w = true.
Proof.
  unfold is_empty_window. induction 1 as [|b w -> _ IH]; [done|]. by cbn.
Qed.

Lemma mark_slot_empty (w : list Z) :
  Forall (fun b => b = 0%Z) w -> truthy (mark_slot w) = false.
Proof. intros Hw. unfold mark_slot. by rewrite is_empty_window_true. Qed.

(** An unmarked bytes object is true even when every byte is zero: the
    harness depends on the extractor's marking. *)
Lemma truthy_ignores_contents (b : Z) (w : list Z) : truthy (SlotBytes (b :: w)) = true.
Proof. done. Qed.

(** ** The record decoder: bytes, key and checksum *)

Section DecoderLemmas.
Local Open Scope Z_scope.

Lemma key_byte_is_byte (key : Z) (j : nat) : is_byte (key_byte key j).
Proof.
  unfold is_byte, key_byte. change 255 with (Z.ones 8).
  rewrite Z.land_ones by lia. apply Z.mod_pos_bound. lia.
Qed.

Lemma lxor_is_byte (a b : Z) : is_byte a -> is_byte b -> is_byte (Z.lxor a b).
Proof.
  unfold is_byte. intros Ha Hb.
  assert (Hnn : 0 <= Z.lxor a b) by (apply Z.lxor_nonneg; lia).
  split; [done|].
  destruct (decide (Z.lxor a b = 0)) as [->|Hne]; [lia|].
  change 256 with (2 ^ 8). apply Z.log2_lt_pow2; [lia|].
  pose proof (Z.log2_lxor a b ltac:(lia) ltac:(lia)) as Hlog.
  assert (Hla : Z.log2 a < 8).
  { destruct (decide (a = 0)) as [->|?]; [done|].
    apply Z.log2_lt_pow2; lia. }
  assert (Hlb : Z.log2 b < 8).
  { destruct (decide (b = 0)) as [->|?]; [done|].
    apply Z.log2_lt_pow2; lia. }
  lia.
Qed.

Lemma lxor_cancel_r (a b k : Z) : Z.lxor a k = Z.lxor b k -> a = b.
Proof.
  intros H. apply (f_equal (fun x => Z.lxor x k)) in H.
  by rewrite !Z.lxor_assoc, !Z.lxor_nilpotent, !Z.lxor_0_r in H.
Qed.

(** Overwriting an encrypted byte overwrites the same decrypted byte. *)
Lemma decrypt_insert (key : Z) (bytes : list Z) (i : nat) (b : Z) :
  decrypt key (<[i := b]> bytes)
  = <[i := Z.lxor b (key_byte key (i mod 4))]> (decrypt key bytes).
Proof.
  unfold decrypt. apply list_eq. intros j.
  destruct (decide (i < length bytes)%nat) as [Hi|Hi].
  - destruct (decide (j = i)) as [->|Hne].
    + rewrite list_lookup_imap, !list_lookup_insert_eq; [done| |done].
      by rewrite length_imap.
    + rewrite list_lookup_imap, !list_lookup_insert_ne by done.
      by rewrite list_lookup_imap.
  - by rewrite !list_insert_ge by (rewrite ?length_imap; lia).
Qed.

Lemma decrypt_lookup (key : Z) (bytes : list Z) (i : nat) (b : Z) :
  bytes !! i = Some b ->
  decrypt key bytes !! i = Some (Z.lxor b (key_byte key (i mod 4))).
Proof. intros H. unfold decrypt. by rewrite list_lookup_imap, H. Qed.

(** Induction over a byte sequence two bytes at a time. *)
Lemma list_pair_ind {A} (P : list A -> Prop) :
  P [] -> (forall a, P [a]) -> (forall a b l, P l -> P (a :: b :: l)) ->
  forall l, P l.
Proof.
  intros Hnil Hone Hcons l.
  assert (H : P l /\ forall a, P (a :: l)); [|by destruct H].
  induction l as [|b l [IH1 IH2]]; [by split|].
  split; [apply IH2|]. intros a. by apply Hcons.
Qed.

Lemma sum_words16_insert (bytes : list Z) (i : nat) (b x : Z) :
  bytes !! i = Some b ->
  sum_words (words16 (<[i := x]> bytes))
  = sum_words (words16 bytes) + (x - b) * byte_weight i.
Proof.
  revert i. induction bytes as [|a|a c rest IH] using list_pair_ind; intros i.
  - done.
  - destruct i as [|i]; [|done]. intros [= ->]. cbn. lia.
  - destruct i as [|[|i]].
    + intros [= ->]. cbn. lia.
    + intros [= ->]. cbn. lia.
    + intros Hi. specialize (IH i Hi).
      change (<[S (S i):=x]> (a :: c :: rest)) with (a :: c :: <[i:=x]> rest).
      change (sum_words (words16 (a :: c :: <[i:=x]> rest)))
        with (a + 256 * c + sum_words (words16 (<[i:=x]> rest))).
      change (sum_words (words16 (a :: c :: rest)))
        with (a + 256 * c + sum_words (words16 rest)).
      change (byte_weight (S (S i))) with (byte_weight i). lia.
Qed.

(** The wrapping sum is the plain sum reduced modulo [2 ^ 16]. *)
Lemma foldl_wrapping_add16 (ws : list Z) (acc : Z) :
  foldl wrapping_add16 (acc mod 65536) ws = (acc + sum_words ws) mod 65536.
Proof.
  revert acc. induction ws as [|w ws IH]; intros acc.
  - cbn. by rewrite Z.add_0_r.
  - change (foldl wrapping_add16 (acc mod 65536) (w :: ws))
      with (foldl wrapping_add16 ((acc mod 65536 + w) mod 65536) ws).
    change (sum_words (w :: ws)) with (w + sum_words ws).
    rewrite IH, <-Z.add_assoc, Zplus_mod_idemp_l. done.
Qed.

Lemma checksum16_eq (plain : list Z) :
  checksum16 plain = sum_words (words16 plain) mod 65536.
Proof.
  unfold checksum16. change 0 with (0 mod 65536) at 1.
  by rewrite foldl_wrapping_add16.
Qed.

(** A change of one byte cannot be absorbed by the wrap-around. *)
Lemma byte_change_shows (s d d' : Z) (i : nat) :
  is_byte d -> is_byte d' -> d' <> d ->
  (s + (d' - d) * byte_weight i) mod 65536 <> s mod 65536.
Proof.
  unfold is_byte. intros Hd Hd' Hne Heq.
  assert (Hdiv : ((d' - d) * byte_weight i) mod 65536 = 0).
  { replace ((d' - d) * byte_weight i)
      with ((s + (d' - d) * byte_weight i) - s) by lia.
    rewrite Zminus_mod, Heq, Z.sub_diag. done. }
  apply Z.mod_divide in Hdiv; [|done]. destruct Hdiv as [q Hq].
  unfold byte_weight in Hq. destruct (Nat.even i); lia.
Qed.

Lemma checksum_detects_byte_change (key : Z) (bytes : list Z) (i : nat) (b b' : Z) :
  bytes !! i = Some b -> is_byte b -> is_byte b' -> b' <> b ->
  checksum16 (decrypt key (<[i := b']> bytes)) <> checksum16 (decrypt key bytes).
Proof.
  intros Hi Hb Hb' Hne.
  rewrite decrypt_insert, !checksum16_eq.
  rewrite (sum_words16_insert _ i (Z.lxor b (key_byte key (i mod 4))))
    by by apply decrypt_lookup.
  apply byte_change_shows.
  - apply lxor_is_byte; [done|apply key_byte_is_byte].
  - apply lxor_is_byte; [done|apply key_byte_is_byte].
  - intros H. by apply lxor_cancel_r in H.
Qed.

(** Masking with 31 leaves a value between 0 and 31. *)
Lemma land_31_range (x : Z) : 0 <= Z.land x 31 <= 31.
Proof.
  assert (H : Z.land x 31 = x mod 2 ^ 5).
  { change 31 with (Z.ones 5). apply Z.land_ones. lia. }
  rewrite H. pose proof (Z.mod_pos_bound x (2 ^ 5) ltac:(lia)). lia.
Qed.

Lemma unpack_ivs_in_range (w : Z) : stats_in 0 31 (unpack_ivs w).
Proof. unfold stats_in, unpack_ivs. cbn. repeat split; apply land_31_range. Qed.

(** A record that decodes has a matching checksum, and its IVs are the
    unpacked fields of the packed word. *)
Lemma decode_ok_inv (fmt : Format) (r : RawRecord) (pokemon : Pokemon) :
  decode fmt r = Ok pokemon ->
  checksum16 (decrypt (xor_key r) (payload r)) = stored_checksum r
  /\ exists w, ivs pokemon = unpack_ivs w.
Proof.
  unfold decode.
  destruct (checksum16 _ =? stored_checksum r) eqn:Hsum; [|done].
  apply Z.eqb_eq in Hsum. cbn [negb].
  destruct (negb _); [done|]. intros [= <-]. split; [done|]. by eexists.
Qed.
End DecoderLemmas.

(** * Properties of the harness *)

(** C1: when parsing one slot raises, the batch does not abort.  The party
    loop returns the records of the slots before and after the failed one,
    prints the error line for it and goes on with the lines of the
    remaining slots; the box loop returns groups whose records are those of
    the slots before and after.  Nothing stands in for the failed slot. *)
Theorem slot_failure_is_isolated {Exn : Type} {C : Collaborators Exn}
    (pre post : list RawSlot) (p : RawSlot) :
  truthy p = true ->
  (forall e, party_parse p = Raise e ->
     party_loop (pre ++ p :: post)
     = (mjoin (imap party_line pre) ++ [MPartyError (length pre) e]
        ++ mjoin (imap (fun j => party_line (length pre + 1 + j)) post),
        Ok (omap (decoded party_parse) pre ++ omap (decoded party_parse) post)))
  /\ (forall e, box_parse p = Raise e ->
     exists t groups,
       box_loop (pre ++ p :: post) = (t, Ok groups)
       /\ concat groups
          = omap (decoded box_parse) pre ++ omap (decoded box_parse) post).
Proof.
  intros Hp. split; intros e He.
  - rewrite party_loop_eq, imap_app, omap_app. cbn.
    unfold decoded at 2. unfold party_line at 2. rewrite Hp, He.
    rewrite Nat.add_0_r, join_app. cbn. f_equal. f_equal. f_equal. f_equal.
    apply imap_ext. intros j x _. cbn. f_equal. lia.
  - destruct (box_loop_returns (pre ++ p :: post)) as [t Ht].
    exists t, (groups_of (pre ++ p :: post)). split; [done|].
    rewrite concat_groups_of, omap_app. cbn.
    unfold decoded at 2. by rewrite Hp, He.
Qed.

(** C2: sixty-five populated box slots that all parse give three groups of
    sizes 30, 30 and 5, in that order. *)
Theorem sixty_five_slots_make_three_groups {Exn : Type} {C : Collaborators Exn}
    (slots : list RawSlot) :
  length slots = 65 ->
  Forall (fun p => truthy p = true /\ exists pokemon, box_parse p = Ok pokemon) slots ->
  exists t groups,
    box_loop slots = (t, Ok groups) /\ map length groups = [30; 30; 5].
Proof.
  intros Hlen Hall.
  destruct (box_loop_returns slots) as [t Ht].
  exists t, (groups_of slots). split; [done|].
  assert (Hrest : length (omap (decoded box_parse) (drop 60 slots)) = 5).
  { rewrite omap_decoded_all by (by apply Forall_drop).
    rewrite length_drop. lia. }
  unfold groups_of. rewrite Hlen.
  change (65 / 30) with 2. change (30 * 2) with 60. cbn [seq map].
  destruct (omap (decoded box_parse) (drop 60 slots)) as [|x rest] eqn:Hdrop;
    [done|].
  rewrite map_app. cbn [map app]. rewrite Hrest.
  unfold group, chunk.
  rewrite !omap_decoded_all by (apply Forall_take; by apply Forall_drop).
  rewrite !length_take, !length_drop. rewrite Hlen. done.
Qed.

(** C3: every consumed slot counts toward the boundary.  After the loop the
    counter is the number of slots, and group [k] of the output holds
    exactly the records that slots [30 * k] to [30 * k + 29] decoded to:
    an empty or failed slot leaves no record and moves no other record to
    another group. *)
Theorem every_slot_counts_toward_the_boundary {Exn : Type} {C : Collaborators Exn}
    (slots : list RawSlot) :
  (exists t st,
     for_enumerate box_body 0 slots box_init = (t, Ok st)
     /\ pokemon_count st = length slots)
  /\ exists t groups,
       box_loop slots = (t, Ok groups)
       /\ forall k, default [] (groups !! k) = omap (decoded box_parse) (chunk k slots).
Proof.
  split.
  - pose proof (for_enumerate_returns box_body box_step
                  (fun i x s => f_equal snd (box_body_eq i x s)) slots 0 box_init) as H.
    destruct (for_enumerate box_body 0 slots box_init) as [t r]. cbn [snd] in H.
    subst r. eexists _, _. split; [done|]. by rewrite box_state_after.
  - destruct (box_loop_returns slots) as [t Ht].
    exists t, (groups_of slots). split; [done|].
    intros k. apply lookup_groups_of.
Qed.

(** C4: an all-zero raw slot, marked empty by the extractor, yields no
    record and no error and prints no line of its own.  In the party loop
    nothing happens at all; in the box loop only the counter moves, and the
    box is closed if the slot is the thirtieth. *)
Theorem empty_slot_is_skipped {Exn : Type} {C : Collaborators Exn}
    (w : list Z) (i : nat) (party : list Pokemon) (st : BoxState) :
  Forall (fun b => b = 0%Z) w ->
  party_body i (mark_slot w) party = ([], Ok party)
  /\ box_body i (mark_slot w) st
     = if (pokemon_count st + 1) mod 30 =? 0 then
         ([MBoxComplete (length (boxes st)) (length (current_box st))],
          Ok {| boxes := boxes st ++ [current_box st]; current_box := [];
                pokemon_count := pokemon_count st + 1 |})
       else
         ([], Ok {| boxes := boxes st; current_box := current_box st;
                    pokemon_count := pokemon_count st + 1 |}).
Proof.
  intros Hw%mark_slot_empty. split.
  - unfold party_body. by rewrite Hw.
  - rewrite box_body_eq. unfold box_line, boundary_line, box_step, decoded.
    rewrite Hw. cbn [option_list]. rewrite !app_nil_r.
    by destruct ((pokemon_count st + 1) mod 30 =? 0).
Qed.

(** C5: the party output is the sequence of decoded records in slot order,
    with empty and failed slots left out, and never longer than the slot
    sequence; for the at most six party slots the extractor supplies it has
    at most six records. *)
Theorem party_output_is_bounded_and_ordered {Exn : Type} {C : Collaborators Exn} :
  (forall slots : list RawSlot,
     exists t party,
       party_loop slots = (t, Ok party)
       /\ party = omap (decoded party_parse) slots
       /\ sublist (Some <$> party) (decoded party_parse <$> slots)
       /\ length party <= length slots)
  /\ (forall windows : list (list Z),
        exists t party,
          party_loop (party_slots windows) = (t, Ok party)
          /\ length party <= 6).
Proof.
  split.
  - intros slots. eexists _, _. split; [apply party_loop_eq|].
    split; [done|]. split; [|apply omap_decoded_length].
    induction slots as [|p slots IH]; [constructor|].
    cbn. destruct (decoded party_parse p); cbn; by constructor.
  - intros windows. eexists _, _. split; [apply party_loop_eq|].
    pose proof (omap_decoded_length party_parse (party_slots windows)) as Hle.
    unfold party_slots in Hle at 2. rewrite length_map, length_take in Hle. lia.
Qed.

(** The example of C5: slots [empty, A, empty, B, C, empty] give [A, B, C]. *)
Example party_example {Exn : Type} {C : Collaborators Exn}
    (e1 e2 e3 a b c : RawSlot) (A B D : Pokemon) :
  truthy e1 = false -> truthy e2 = false -> truthy e3 = false ->
  truthy a = true -> truthy b = true -> truthy c = true ->
  party_parse a = Ok A -> party_parse b = Ok B -> party_parse c = Ok D ->
  (party_loop [e1; a; e2; b; c; e3]).2 = Ok [A; B; D].
Proof.
  intros He1 He2 He3 Ha Hb Hc HA HB HD. rewrite party_loop_eq. cbn.
  unfold decoded. by rewrite He1, He2, He3, Ha, Hb, Hc, HA, HB, HD.
Qed.

(** C6: when [SaveFile] raises on the bytes read, [parse_sav_file] prints
    the file size and the error and raises the same exception: nothing is
    extracted, nothing is tried again and no result is returned. *)
Theorem section_failure_is_fatal {Exn : Type} {C : Collaborators Exn}
    (sav_path : string) (raw : list Z) (e : Exn) :
  read_file sav_path = Ok raw ->
  SaveFile raw = Raise e ->
  parse_sav_file sav_path
  = ([MParsing sav_path; MFileSize (length raw); MFatal e], Raise e).
Proof.
  intros Hread Hsave. unfold parse_sav_file, parse_body.
  rewrite Hread. cbn. by rewrite Hsave.
Qed.

(** C9: every full run of thirty slots is a group of the output, with or
    without records; the slots after the last boundary form a group only if
    one of them decoded to a record, and the group is then exactly the
    records they decoded to.  The output is the full groups followed by
    that trailing group, if any.  So thirty-one empty slots give one group,
    an empty one, fewer than the two that thirty-one slots span. *)
Theorem trailing_group_needs_a_record {Exn : Type} {C : Collaborators Exn} :
  (forall slots : list RawSlot,
     exists t groups,
       box_loop slots = (t, Ok groups)
       /\ (forall k, k < length slots / 30 ->
             groups !! k = Some (omap (decoded box_parse) (chunk k slots)))
       /\ length groups
          = length slots / 30
            + match omap (decoded box_parse)
                      (drop (30 * (length slots / 30)) slots) with
              | [] => 0
              | _ :: _ => 1
              end
       /\ groups
          = map (fun k => omap (decoded box_parse) (chunk k slots))
              (seq 0 (length slots / 30))
            ++ match omap (decoded box_parse)
                       (drop (30 * (length slots / 30)) slots) with
               | [] => []
               | _ :: _ =>
                   [omap (decoded box_parse)
                      (drop (30 * (length slots / 30)) slots)]
               end
       /\ (forall g, groups !! (length slots / 30) = Some g ->
             g <> []
             /\ g = omap (decoded box_parse)
                      (drop (30 * (length slots / 30)) slots))
       /\ (omap (decoded box_parse) (drop (30 * (length slots / 30)) slots) <> [] ->
           groups !! (length slots / 30)
           = Some (omap (decoded box_parse)
                     (drop (30 * (length slots / 30)) slots))))
  /\ exists t,
       box_loop (replicate 31 SlotNone) = (t, Ok [[]])
       /\ length [[] : list Pokemon] < (length (replicate 31 SlotNone) + 29) / 30.
Proof.
  split.
  - intros slots. destruct (box_loop_returns slots) as [t Ht].
    exists t, (groups_of slots). split; [done|]. split.
    { intros k Hk. by apply lookup_groups_of_full. }
    split; [apply length_groups_of|]. split; [reflexivity|].
    assert (Hlast : groups_of slots !! (length slots / 30)
                    = match omap (decoded box_parse)
                              (drop (30 * (length slots / 30)) slots) with
                      | [] => None
                      | _ :: _ =>
                          Some (omap (decoded box_parse)
                                  (drop (30 * (length slots / 30)) slots))
                      end).
    { unfold groups_of.
      rewrite lookup_app_r by (by rewrite length_map, length_seq).
      rewrite length_map, length_seq, Nat.sub_diag.
      by destruct (omap (decoded box_parse) (drop _ slots)). }
    rewrite Hlast. split.
    + intros g Hg.
      destruct (omap (decoded box_parse) (drop _ slots)) as [|x rest]; [done|].
      injection Hg as <-. by split.
    + intros Hne.
      by destruct (omap (decoded box_parse) (drop _ slots)) as [|x rest].
  - destruct (box_loop_returns (replicate 31 SlotNone)) as [t Ht].
    exists t. split; [|vm_compute; lia].
    rewrite Ht. vm_compute. reflexivity.
Qed.

(** C10: in the result of a successful parse, [total_pokemon] is the number
    of party records plus the sizes of all box-groups of that result. *)
Theorem total_matches_the_result {Exn : Type} {C : Collaborators Exn}
    (sav_path : string) (t : list (Msg Exn)) (r : Json.result) :
  parse_sav_file sav_path = (t, Ok r) ->
  Json.total_pokemon r
  = length (Json.party r) + sum_list (map length (Json.boxes r)).
Proof.
  unfold parse_sav_file. intros H.
  apply m_bind_inv_ok in H as (? & ? & ? & _ & H & _).
  apply try_except_inv_ok in H. unfold parse_body in H.
  repeat (apply m_bind_inv_ok in H as (? & ? & ? & ? & H & ?); cbv beta in H).
  repeat match goal with
         | Hm : map_m (map_m _) _ = (_, Ok _) |- _ =>
             apply map_m_map_m_lengths in Hm
         | Hm : map_m _ _ = (_, Ok _) |- _ => apply map_m_length in Hm
         end.
  injection H as _ <-. cbn. congruence.
Qed.

(** * Properties of the record decoder *)

(** C7: overwrite any one byte of the encrypted payload of a record that
    decodes, keep the stored checksum, and decoding fails with [Checksum];
    it never returns a record. *)
Theorem single_byte_mutation_is_rejected (fmt : Format) (r : RawRecord)
    (pokemon : Pokemon) (i : nat) (b b' : Z) :
  decode fmt r = Ok pokemon ->
  Forall is_byte (payload r) ->
  payload r !! i = Some b ->
  is_byte b' -> b' <> b ->
  decode fmt (mutate_payload r i b') = Raise Checksum.
Proof.
  intros [Hsum _]%decode_ok_inv Hbytes Hi Hb' Hne.
  assert (Hb : is_byte b) by (by eapply Forall_lookup_1 in Hbytes).
  pose proof (checksum_detects_byte_change (xor_key r) (payload r) i b b'
                Hi Hb Hb' Hne) as Hdiff.
  unfold decode. change (xor_key (mutate_payload r i b')) with (xor_key r).
  cbn [mutate_payload payload stored_checksum]. rewrite <-Hsum.
  destruct (Z.eqb_spec (checksum16 (decrypt (xor_key r) (<[i:=b']> (payload r))))
              (checksum16 (decrypt (xor_key r) (payload r)))); [done|].
  done.
Qed.

(** C8: each of the six IV components of a decoded record lies between 0
    and 31, and so does each IV entry of the dictionary [pokemon_to_dict]
    builds from it. *)
Theorem decoded_ivs_are_in_range (fmt : Format) (r : RawRecord) (pokemon : Pokemon) :
  decode fmt r = Ok pokemon ->
  stats_in 0 31 (ivs pokemon)
  /\ forall (Exn : Type) (C : Collaborators Exn) (dm : DataManager)
       (t : list (Msg Exn)) (d : Json.pokemon),
       pokemon_to_dict dm pokemon = (t, Ok d) -> stats_in 0 31 (Json.ivs d).
Proof.
  intros [_ [w Hw]]%decode_ok_inv.
  assert (Hivs : stats_in 0 31 (ivs pokemon)).
  { rewrite Hw. apply unpack_ivs_in_range. }
  split; [done|]. intros Exn C dm t d H. unfold pokemon_to_dict in H.
  repeat (apply m_bind_inv_ok in H as (? & ? & ? & ? & H & ?); cbv beta in H).
  injection H as _ <-. exact Hivs.
Qed.

(** * The theorems at work in the small world *)

Section Examples.
Import Demo.

Lemma tampered_slot_fails :
  truthy tampered_slot = true /\ parse tampered_slot = Raise (Decode Checksum).
Proof. split; vm_compute; reflexivity. Defined.

Lemma pikachu_slot_parses :
  truthy pikachu_slot = true /\ parse pikachu_slot = Ok pikachu_pokemon.
Proof. split; vm_compute; reflexivity. Defined.

(** A damaged record between Pikachu and Bulbasaur. *)
Lemma slot_failure_is_isolated_witness :
  truthy tampered_slot = true
  /\ party_parse tampered_slot = Raise (Decode Checksum)
  /\ box_parse tampered_slot = Raise (Decode Checksum)
  /\ party_loop ([empty_slot; pikachu_slot] ++ tampered_slot :: [bulbasaur_slot])
     = ([MPartySlot 1 25 12; MPartyError 2 (Decode Checksum); MPartySlot 3 1 5],
        Ok [pikachu_pokemon; bulbasaur_pokemon])
  /\ exists t groups,
       box_loop ([empty_slot; pikachu_slot] ++ tampered_slot :: [bulbasaur_slot])
       = (t, Ok groups)
       /\ concat groups = [pikachu_pokemon; bulbasaur_pokemon].
Proof.
  destruct tampered_slot_fails as [Hp He].
  destruct (slot_failure_is_isolated
              [empty_slot; pikachu_slot] [bulbasaur_slot] tampered_slot Hp)
    as [Hparty Hbox].
  split; [exact Hp|]. split; [exact He|]. split; [exact He|]. split.
  - rewrite (Hparty _ He). vm_compute. reflexivity.
  - destruct (Hbox _ He) as (t & groups & Hrun & Hcat).
    exists t, groups. split; [exact Hrun|]. rewrite Hcat. vm_compute. reflexivity.
Defined.

Lemma sixty_five_slots_make_three_groups_witness :
  length (replicate 65 pikachu_slot) = 65
  /\ Forall (fun p => truthy p = true /\ exists pokemon, box_parse p = Ok pokemon)
       (replicate 65 pikachu_slot)
  /\ exists t groups,
       box_loop (replicate 65 pikachu_slot) = (t, Ok groups)
       /\ map length groups = [30; 30; 5].
Proof.
  assert (Hlen : length (replicate 65 pikachu_slot) = 65)
    by apply length_replicate.
  assert (Hall : Forall (fun p => truthy p = true
                                  /\ exists pokemon, box_parse p = Ok pokemon)
                   (replicate 65 pikachu_slot)).
  { apply Forall_replicate. destruct pikachu_slot_parses as [Ht Hparse].
    split; [exact Ht|]. exists pikachu_pokemon. exact Hparse. }
  split; [exact Hlen|]. split; [exact Hall|].
  exact (sixty_five_slots_make_three_groups (replicate 65 pikachu_slot) Hlen Hall).
Defined.

(** An all-zero slot as slot 29 of the box sequence, closing box 0. *)
Lemma empty_slot_is_skipped_witness :
  Forall (fun b => b = 0%Z) zeros
  /\ party_body 3 (mark_slot zeros) [pikachu_pokemon] = ([], Ok [pikachu_pokemon])
  /\ box_body 29 (mark_slot zeros)
       {| boxes := []; current_box := [pikachu_pokemon]; pokemon_count := 29 |}
     = ([MBoxComplete 0 1],
        Ok {| boxes := [[pikachu_pokemon]]; current_box := [];
              pokemon_count := 30 |}).
Proof.
  assert (Hz : Forall (fun b => b = 0%Z) zeros).
  { apply Forall_replicate. reflexivity. }
  split; [exact Hz|].
  destruct (empty_slot_is_skipped zeros 3 [pikachu_pokemon]
              {| boxes := []; current_box := [pikachu_pokemon];
                 pokemon_count := 29 |} Hz) as [Hparty _].
  destruct (empty_slot_is_skipped zeros 29 [pikachu_pokemon]
              {| boxes := []; current_box := [pikachu_pokemon];
                 pokemon_count := 29 |} Hz) as [_ Hbox].
  split; [exact Hparty|]. rewrite Hbox. vm_compute. reflexivity.
Defined.

Lemma party_output_is_bounded_and_ordered_witness :
  exists t party,
    party_loop (party_slots party_windows) = (t, Ok party)
    /\ party = [pikachu_pokemon; bulbasaur_pokemon]
    /\ length party <= 6.
Proof.
  destruct (proj1 (party_output_is_bounded_and_ordered (C:=world))
              (party_slots party_windows))
    as (t & party & Hrun & Hparty & _ & _).
  exists t, party. split; [exact Hrun|]. rewrite Hparty.
  split; [vm_compute; reflexivity|vm_compute; lia].
Defined.

Lemma section_failure_is_fatal_witness :
  read_file "corrupt.sav" = Ok [0; 0; 0]%Z
  /\ SaveFile [0; 0; 0]%Z = Raise CorruptImage
  /\ parse_sav_file "corrupt.sav"
     = ([MParsing "corrupt.sav"; MFileSize 3; MFatal CorruptImage],
        Raise CorruptImage).
Proof.
  assert (Hread : read_file "corrupt.sav" = Ok [0; 0; 0]%Z) by reflexivity.
  assert (Hsave : SaveFile [0; 0; 0]%Z = Raise CorruptImage) by reflexivity.
  split; [exact Hread|]. split; [exact Hsave|].
  exact (section_failure_is_fatal "corrupt.sav" [0; 0; 0]%Z CorruptImage
           Hread Hsave).
Defined.

(** The thirty-one demo slots: one full box, then one empty slot, so no
    trailing group.  Thirty empty slots and then Pikachu: an empty full
    box, then a trailing group that holds Pikachu. *)
Lemma trailing_group_needs_a_record_witness :
  0 < length box_slots / 30
  /\ (exists t groups,
        box_loop box_slots = (t, Ok groups)
        /\ groups !! 0 = Some [pikachu_pokemon]
        /\ length groups = 1
        /\ groups = [[pikachu_pokemon]])
  /\ omap (decoded box_parse)
       (drop (30 * (length (replicate 30 empty_slot ++ [pikachu_slot]) / 30))
          (replicate 30 empty_slot ++ [pikachu_slot])) <> []
  /\ exists t groups,
       box_loop (replicate 30 empty_slot ++ [pikachu_slot]) = (t, Ok groups)
       /\ groups !! 1 = Some [pikachu_pokemon]
       /\ groups = [[]; [pikachu_pokemon]].
Proof.
  assert (H0 : 0 < length box_slots / 30) by (vm_compute; lia).
  split; [exact H0|]. split.
  - destruct (proj1 (trailing_group_needs_a_record (C:=world)) box_slots)
      as (t & groups & Hrun & Hfull & Hlen & Hall & _ & _).
    exists t, groups. split; [exact Hrun|]. split; [|split].
    + rewrite (Hfull 0 H0). vm_compute. reflexivity.
    + rewrite Hlen. vm_compute. reflexivity.
    + rewrite Hall. vm_compute. reflexivity.
  - assert (Hne : omap (decoded box_parse)
                    (drop (30 * (length (replicate 30 empty_slot
                                         ++ [pikachu_slot]) / 30))
                       (replicate 30 empty_slot ++ [pikachu_slot])) <> [])
      by (vm_compute; discriminate).
    split; [exact Hne|].
    destruct (proj1 (trailing_group_needs_a_record (C:=world))
                (replicate 30 empty_slot ++ [pikachu_slot]))
      as (t & groups & Hrun & _ & _ & Hall & _ & Hlast).
    exists t, groups. split; [exact Hrun|]. split.
    + pose proof (Hlast Hne) as Hl.
      change (length (replicate 30 empty_slot ++ [pikachu_slot]) / 30)
        with 1 in Hl.
      rewrite Hl. vm_compute. reflexivity.
    + rewrite Hall. vm_compute. reflexivity.
Defined.

Lemma total_matches_the_result_witness :
  parse_sav_file "demo.sav" = ((parse_sav_file "demo.sav").1, Ok demo_result)
  /\ Json.total_pokemon demo_result
     = length (Json.party demo_result)
       + sum_list (map length (Json.boxes demo_result)).
Proof.
  assert (Hrun : parse_sav_file "demo.sav"
                 = ((parse_sav_file "demo.sav").1, Ok demo_result))
    by (vm_compute; reflexivity).
  split; [exact Hrun|].
  exact (total_matches_the_result "demo.sav" _ demo_result Hrun).
Defined.

Lemma pikachu_payload_is_bytes : Forall is_byte (payload pikachu).
Proof.
  let bytes := eval vm_compute in (payload pikachu) in
  change (Forall is_byte bytes).
  repeat (apply Forall_cons; split; [unfold is_byte; lia|]). apply Forall_nil_2.
Defined.

(** Byte 5 of Pikachu's payload, 213, overwritten with 7. *)
Lemma single_byte_mutation_is_rejected_witness :
  decode fmt pikachu = Ok pikachu_pokemon
  /\ Forall is_byte (payload pikachu)
  /\ payload pikachu !! 5 = Some 213%Z
  /\ is_byte 7 /\ 7%Z <> 213%Z
  /\ decode fmt (mutate_payload pikachu 5 7) = Raise Checksum.
Proof.
  assert (Hok : decode fmt pikachu = Ok pikachu_pokemon)
    by (vm_compute; reflexivity).
  assert (Hi : payload pikachu !! 5 = Some 213%Z) by (vm_compute; reflexivity).
  assert (Hb : is_byte 7) by (unfold is_byte; lia).
  assert (Hne : 7%Z <> 213%Z) by lia.
  split; [exact Hok|]. split; [exact pikachu_payload_is_bytes|].
  split; [exact Hi|]. split; [exact Hb|]. split; [exact Hne|].
  exact (single_byte_mutation_is_rejected fmt pikachu pikachu_pokemon 5 213 7
           Hok pikachu_payload_is_bytes Hi Hb Hne).
Defined.

Lemma decoded_ivs_are_in_range_witness :
  decode fmt bulbasaur = Ok bulbasaur_pokemon
  /\ stats_in 0 31 (ivs bulbasaur_pokemon)
  /\ stats_in 0 31 (Json.ivs bulbasaur_dict).
Proof.
  assert (Hok : decode fmt bulbasaur = Ok bulbasaur_pokemon)
    by (vm_compute; reflexivity).
  destruct (decoded_ivs_are_in_range fmt bulbasaur bulbasaur_pokemon Hok)
    as [Hivs Hdict].
  split; [exact Hok|]. split; [exact Hivs|].
  apply (Hdict Error world (tt : @DataManager Error world)
           (pokemon_to_dict (C:=world) (tt : @DataManager Error world)
              bulbasaur_pokemon).1).
  vm_compute. reflexivity.
Defined.
End Examples.

(** * Further properties of the harness

    ** Loops and comprehensions *)

Section MoreEffectLemmas.
Context {Exn : Type}.

Lemma map_m_Forall2 {A B} (f : A -> M Exn B) xs t ys :
  map_m f xs = (t, Ok ys) ->
  Forall2 (fun x y => exists t', f x = (t', Ok y)) xs ys.
Proof.
  revert t ys. induction xs as [|x xs IH]; intros t ys; cbn [map_m].
  - intros [= _ <-]. constructor.
  - intros H. apply m_bind_inv_ok in H as (t1 & y & t2 & Hx & H & _).
    apply m_bind_inv_ok in H as (t3 & ys' & t4 & Hxs & H & _).
    injection H as _ <-. constructor; [by exists t1|by eapply IH].
Qed.

(** A comprehension over calls prints nothing. *)
Lemma map_m_call_silent {A B} (g : A -> result Exn B) xs t ys :
  map_m (fun x => call (g x)) xs = (t, Ok ys) ->
  t = [] /\ Forall2 (fun x y => g x = Ok y) xs ys.
Proof.
  revert t ys. induction xs as [|x xs IH]; intros t ys; cbn [map_m].
  - intros [= <- <-]. by split.
  - intros H. apply m_bind_inv_ok in H as (t1 & y & t2 & Hx & H & ->).
    apply m_bind_inv_ok in H as (t3 & ys' & t4 & Hxs & H & ->).
    injection H as <- <-. injection Hx as <- Hx.
    destruct (IH _ _ Hxs) as [-> Hall]. split; [done|by constructor].
Qed.

Lemma map_m_silent {A B} (f : A -> M Exn B) xs t ys :
  (forall x t' y, f x = (t', Ok y) -> t' = []) ->
  map_m f xs = (t, Ok ys) -> t = [].
Proof.
  intros Hf. revert t ys. induction xs as [|x xs IH]; intros t ys; cbn [map_m].
  - by intros [= <- _].
  - intros H. apply m_bind_inv_ok in H as (t1 & y & t2 & Hx & H & ->).
    apply m_bind_inv_ok in H as (t3 & ys' & t4 & Hxs & H & ->).
    injection H as <- _. by rewrite (Hf _ _ _ Hx), (IH _ _ Hxs).
Qed.

Lemma m_bind_inv_raise {A B} (m : M Exn A) (f : A -> M Exn B) t e :
  m_bind m f = (t, Raise e) ->
  m = (t, Raise e)
  \/ exists t1 a t2, m = (t1, Ok a) /\ f a = (t2, Raise e) /\ t = t1 ++ t2.
Proof.
  destruct m as [t1 [a|e']]; cbn.
  - destruct (f a) as [t2 r] eqn:Hf. intros [= <- ->]. right. by exists t1, a, t2.
  - intros [= <- <-]. by left.
Qed.
End MoreEffectLemmas.

(** ** The lines of the party loop *)

Section PartyLineLemmas.
Context {Exn : Type} {C : Collaborators Exn}.

Lemma elem_of_party_lines (m : Msg Exn) (slots : list RawSlot) :
  m ∈ mjoin (imap party_line slots)
  <-> exists i p, slots !! i = Some p /\ m ∈ party_line i p.
Proof.
  rewrite list_elem_of_join. split.
  - intros (l & Hm & (i & p & -> & Hi)%elem_of_lookup_imap). by exists i, p.
  - intros (i & p & Hi & Hm). exists (party_line i p). split; [done|].
    by apply (elem_of_lookup_imap_2 party_line).
Qed.

Lemma join_cons_eq {A} (l : list A) (ls : list (list A)) :
  mjoin (l :: ls) = l ++ mjoin ls.
Proof. reflexivity. Qed.

Lemma party_lines_count (i : nat) (slots : list RawSlot) :
  length (mjoin (imap (fun j => party_line (i + j)) slots))
  = length (List.filter truthy slots)
  /\ length (omap (decoded party_parse) slots)
     + length (List.filter is_error_line
                 (mjoin (imap (fun j => party_line (i + j)) slots)))
     = length (List.filter truthy slots).
Proof.
  revert i. induction slots as [|p slots IH]; intros i; [done|].
  rewrite imap_cons, join_cons_eq.
  rewrite (imap_ext _ (fun j => party_line (S i + j)))
    by (intros j x _; cbn; f_equal; lia).
  destruct (IH (S i)) as [IH1 IH2].
  set (rest := mjoin (imap (fun j => party_line (S i + j)) slots)) in *.
  rewrite List.filter_app, !length_app, IH1.
  cbn [List.filter omap list_omap]. unfold party_line. unfold decoded at 1.
  destruct (truthy p); [|cbn [length List.filter]; lia].
  destruct (party_parse p) as [pokemon|e];
    cbn [length List.filter is_error_line]; lia.
Qed.

Lemma party_lines_count_0 (slots : list RawSlot) :
  length (mjoin (imap party_line slots)) = length (List.filter truthy slots)
  /\ length (omap (decoded party_parse) slots)
     + length (List.filter is_error_line (mjoin (imap party_line slots)))
     = length (List.filter truthy slots).
Proof.
  rewrite (imap_ext party_line (fun j => party_line (0 + j))) by done.
  apply party_lines_count.
Qed.
End PartyLineLemmas.

(** ** The lines of the box loop *)

Section BoxLineLemmas.
Context {Exn : Type} {C : Collaborators Exn}.

Lemma box_enumerate_eq (i : nat) (xs : list RawSlot) (st : BoxState) :
  for_enumerate box_body i xs st
  = (box_trace i xs st, Ok (foldl (flip box_step) st xs)).
Proof.
  revert i st. induction xs as [|p xs IH]; intros i st; [done|].
  cbn [for_enumerate box_trace foldl]. rewrite box_body_eq, m_bind_ok.
  by rewrite IH.
Qed.

Lemma final_box_eq (st : BoxState) :
  final_box (Exn:=Exn) st
  = (final_line st,
     Ok (boxes st ++ match current_box st with
                     | [] => []
                     | _ :: _ => [current_box st]
                     end)).
Proof.
  unfold final_box, final_line. destruct (current_box st); [|done].
  cbn. by rewrite app_nil_r.
Qed.

(** The whole box loop: its lines and its groups. *)
Lemma box_loop_eq (slots : list RawSlot) :
  box_loop slots
  = (box_trace 0 slots box_init
     ++ match open_box slots with
        | [] => []
        | _ :: _ => [MFinalBox (length (open_box slots))]
        end,
     Ok (groups_of slots)).
Proof.
  unfold box_loop. fold box_init. rewrite box_enumerate_eq, m_bind_ok.
  rewrite final_box_eq, box_state_after. reflexivity.
Qed.

(** A line of the box loop is printed at some slot, in the state the
    slots before it have left. *)
Lemma elem_of_box_trace (m : Msg Exn) (i : nat) (xs : list RawSlot)
    (st : BoxState) :
  m ∈ box_trace i xs st
  <-> exists j p,
        xs !! j = Some p
        /\ m ∈ box_line (i + j) p (foldl (flip box_step) st (take j xs))
               ++ boundary_line p (foldl (flip box_step) st (take j xs)).
Proof.
  revert i st. induction xs as [|q xs IH]; intros i st.
  - cbn. split; [by intros ?%elem_of_nil|by intros (j & p & ? & _)].
  - cbn [box_trace]. rewrite elem_of_app, IH. split.
    + intros [Hm|(j & p & Hj & Hm)].
      * exists 0, q. rewrite Nat.add_0_r. by split.
      * exists (S j), p. split; [done|].
        replace (i + S j) with (S i + j) by lia. done.
    + intros ([|j] & p & Hj & Hm).
      * injection Hj as <-. rewrite Nat.add_0_r in Hm. by left.
      * right. exists j, p. split; [done|].
        replace (S i + j) with (i + S j) by lia. done.
Qed.

(** The state in which slot [j] is reached. *)
Lemma box_state_at (slots : list RawSlot) (j : nat) :
  j <= length slots ->
  foldl (flip box_step) box_init (take j slots)
  = {| boxes := map (fun k => group k (take j slots)) (seq 0 (j / 30));
       current_box := omap (decoded box_parse) (drop (30 * (j / 30)) (take j slots));
       pokemon_count := j |}.
Proof. intros Hj. rewrite box_state_after, length_take. by rewrite Nat.min_l. Qed.

(** The slot that closes box [k] leaves in it what slots [30 * k] to
    [30 * k + 29] decoded to. *)
Lemma closing_slot_group (slots : list RawSlot) (j : nat) (p : RawSlot) :
  slots !! j = Some p -> (j + 1) mod 30 = 0 ->
  omap (decoded box_parse) (drop (30 * (j / 30)) (take j slots))
  ++ option_list (decoded box_parse p)
  = group (j / 30) slots.
Proof.
  intros Hj Hmod. divmod30 j. divmod30 (j + 1).
  pose proof (lookup_lt_Some _ _ _ Hj) as Hlt.
  assert (Hsnoc : take (j + 1) slots = take j slots ++ [p]).
  { replace (j + 1) with (S j) by lia. by apply take_S_r. }
  transitivity (omap (decoded box_parse)
                  (drop (30 * (j / 30)) (take (j + 1) slots))).
  { rewrite Hsnoc, drop_app_le by (rewrite length_take; lia).
    by rewrite omap_app. }
  unfold group, chunk. f_equal.
  rewrite take_drop_commute. f_equal. f_equal. lia.
Qed.

Lemma box_trace_errors (i : nat) (xs : list RawSlot) (st : BoxState) :
  length (List.filter is_error_line (box_trace i xs st))
  + length (omap (decoded box_parse) xs)
  = length (List.filter truthy xs).
Proof.
  revert i st. induction xs as [|p xs IH]; intros i st; [done|].
  cbn [box_trace]. rewrite !List.filter_app, !length_app.
  specialize (IH (S i) (box_step p st)).
  set (rest := box_trace (S i) xs (box_step p st)) in *.
  assert (Hb : List.filter is_error_line (boundary_line p st) = []).
  { unfold boundary_line. by destruct (_ =? _). }
  rewrite Hb. cbn [List.filter omap list_omap].
  unfold box_line. unfold decoded at 1.
  destruct (truthy p); [|cbn [length List.filter]; lia].
  destruct (box_parse p) as [pokemon|e];
    cbn [length List.filter is_error_line]; lia.
Qed.

Lemma concat_length_sum {A} (ls : list (list A)) :
  length (concat ls) = sum_list (map length ls).
Proof.
  induction ls as [|l ls IH]; [done|].
  cbn. by rewrite length_app, IH.
Qed.
End BoxLineLemmas.

Section BoxLoopLines.
Context {Exn : Type} {C : Collaborators Exn}.

(** Where a line of the whole box loop comes from. *)
Lemma elem_of_box_loop (m : Msg Exn) (slots : list RawSlot) :
  m ∈ (box_loop slots).1
  <-> (exists j p,
         slots !! j = Some p
         /\ (m ∈ box_line j p (foldl (flip box_step) box_init (take j slots))
             \/ m ∈ boundary_line p
                      (foldl (flip box_step) box_init (take j slots))))
      \/ (open_box slots <> [] /\ m = MFinalBox (length (open_box slots))).
Proof.
  rewrite box_loop_eq. cbn [fst]. rewrite elem_of_app, elem_of_box_trace.
  apply or_iff_compat_l || idtac.
  split.
  - intros [(j & p & Hj & Hm)|Hm].
    + left. exists j, p. split; [done|]. by apply elem_of_app in Hm.
    + right. destruct (open_box slots) eqn:Hopen; [by apply elem_of_nil in Hm|].
      apply list_elem_of_singleton in Hm. by split.
  - intros [(j & p & Hj & Hm)|[Hne ->]].
    + left. exists j, p. split; [done|]. by apply elem_of_app.
    + right. destruct (open_box slots); [done|]. by apply list_elem_of_singleton.
Qed.

Lemma box_count_at (slots : list RawSlot) (j : nat) (p : RawSlot) :
  slots !! j = Some p ->
  pokemon_count (foldl (flip box_step) box_init (take j slots)) = j.
Proof.
  intros Hj%lookup_lt_Some. rewrite box_state_at by lia. done.
Qed.
End BoxLoopLines.

(** ** Groups of a sequence that starts with full boxes *)

Section GroupComposition.
Context {Exn : Type} {C : Collaborators Exn}.

Lemma groups_of_full_box (xs ys : list RawSlot) :
  length xs = 30 ->
  groups_of (xs ++ ys) = omap (decoded box_parse) xs :: groups_of ys.
Proof.
  intros Hlen. unfold groups_of. rewrite length_app, Hlen.
  set (n := length ys). divmod30 n. divmod30 (30 + n).
  replace ((30 + n) / 30) with (S (n / 30)) by lia.
  cbn [seq map app]. f_equal.
  - unfold group, chunk. replace (30 * 0) with 0 by lia.
    rewrite drop_0. by rewrite take_app_length' by done.
  - rewrite <-seq_shift, map_map. f_equal.
    + apply map_ext. intros k. unfold group, chunk. f_equal. f_equal.
      rewrite drop_app_ge by lia. f_equal. lia.
    + rewrite drop_app_ge by lia.
      replace (30 * S (n / 30) - length xs) with (30 * (n / 30)) by lia.
      done.
Qed.

Lemma groups_of_full_boxes (m : nat) (xs ys : list RawSlot) :
  length xs = 30 * m ->
  groups_of (xs ++ ys) = groups_of xs ++ groups_of ys.
Proof.
  revert xs. induction m as [|m IH]; intros xs Hlen.
  - destruct xs; [done|]. cbn in Hlen. lia.
  - assert (H30 : length (take 30 xs) = 30) by (rewrite length_take; lia).
    assert (Hm : length (drop 30 xs) = 30 * m) by (rewrite length_drop; lia).
    assert (Hxs : xs = take 30 xs ++ drop 30 xs) by (by rewrite take_drop).
    set (a := take 30 xs) in *. set (b := drop 30 xs) in *. rewrite Hxs.
    rewrite <-app_assoc, (groups_of_full_box a (b ++ ys)) by done.
    rewrite (groups_of_full_box a b) by done. by rewrite (IH b Hm).
Qed.
End GroupComposition.

(** ** ASCII lower case *)

Lemma lower_ascii_not_upper (c : ascii) : is_upper (lower_ascii c) = false.
Proof. destruct c as [[] [] [] [] [] [] [] []]; vm_compute; reflexivity. Qed.

Lemma lower_has_no_upper (s : string) : has_upper (lower s) = false.
Proof.
  induction s as [|c s IH]; [done|].
  cbn [lower has_upper]. by rewrite lower_ascii_not_upper, IH.
Qed.

(** ** Inverting a run *)

Section RunLemmas.
Context {Exn : Type} {C : Collaborators Exn}.

Lemma call_inv_ok {A} (r : result Exn A) t a :
  call r = (t, Ok a) -> t = [] /\ r = Ok a.
Proof. by intros [= <- ->]. Qed.

Lemma tell_inv_ok (m : Msg Exn) t a : tell m = (t, Ok a) -> t = [m].
Proof. by intros [= <- _]. Qed.

Lemma map_m_call_returns {A B} (g : A -> result Exn B) xs :
  Forall (fun x => exists y, g x = Ok y) xs ->
  exists ys, map_m (fun x => call (g x)) xs = ([], Ok ys).
Proof.
  induction 1 as [|x xs [y Hx] _ [ys Hxs]]; cbn [map_m].
  - by eexists.
  - rewrite Hx. unfold call at 1. rewrite m_bind_ok. cbv beta.
    rewrite Hxs, m_bind_ok. cbn. by eexists.
Qed.

(** What a returning [pokemon_to_dict] has looked up and built. *)
Lemma pokemon_to_dict_inv (dm : DataManager) (pkmn : Pokemon) t d :
  pokemon_to_dict dm pkmn = (t, Ok d) ->
  t = []
  /\ exists move_names species_name ability_name item_name,
       Forall2 (fun id n => get_move_name dm id = Ok n)
         (filter (fun id => (0 < id)%Z) (move_ids pkmn)) move_names
       /\ get_species_name dm (species_id pkmn) = Ok species_name
       /\ get_ability_name dm (ability_index pkmn) species_name
            (has_ha_flag pkmn) = Ok ability_name
       /\ get_item_name dm (held_item_id pkmn) = Ok item_name
       /\ d = {|
            Json.species_id := species_id pkmn;
            Json.name := lower species_name;
            Json.level := level pkmn;
            Json.ability_index := ability_index pkmn;
            Json.ability_name := ability_name;
            Json.nature := nature pkmn;
            Json.move_ids := move_ids pkmn;
            Json.move_names := move_names;
            Json.held_item_id := held_item_id pkmn;
            Json.held_item_name := item_name;
            Json.ivs := ivs pkmn;
            Json.evs := evs pkmn;
            Json.nickname := nickname pkmn;
            Json.gender := gender pkmn;
            Json.is_egg := is_egg_flag pkmn;
            Json.has_hidden_ability := has_ha_flag pkmn |}.
Proof.
  unfold pokemon_to_dict. intros H.
  apply m_bind_inv_ok in H as (t1 & names & t2 & Hmoves & H & ->).
  apply map_m_call_silent in Hmoves as [-> Hmoves].
  apply m_bind_inv_ok in H as (t3 & sname & t4 & [-> Hs]%call_inv_ok & H & ->).
  apply m_bind_inv_ok in H as (t5 & aname & t6 & [-> Ha]%call_inv_ok & H & ->).
  apply m_bind_inv_ok in H as (t7 & iname & t8 & [-> Hi]%call_inv_ok & H & ->).
  apply m_bind_inv_ok in H as (t9 & sname' & t10 & [-> Hs']%call_inv_ok & H & ->).
  injection H as <- <-. rewrite Hs in Hs'. injection Hs' as <-.
  split; [done|]. exists names, sname, aname, iname.
  repeat (split; [done|]). f_equal; by destruct (ivs pkmn), (evs pkmn).
Qed.
End RunLemmas.

Section ParseLemmas.
Context {Exn : Type} {C : Collaborators Exn}.

Lemma dicts_silent (dm : DataManager) (pokemon : list Pokemon) t dicts :
  map_m (pokemon_to_dict dm) pokemon = (t, Ok dicts) -> t = [].
Proof.
  apply map_m_silent. intros pkmn t' d Hd.
  by destruct (pokemon_to_dict_inv _ _ _ _ Hd).
Qed.

Lemma dictss_silent (dm : DataManager) (groups : list (list Pokemon)) t dictss :
  map_m (map_m (pokemon_to_dict dm)) groups = (t, Ok dictss) -> t = [].
Proof. apply map_m_silent. intros g t' ds. apply dicts_silent. Qed.

(** What a returning [parse_sav_file] has been given, has printed and
    has built. *)
Lemma parse_success_inv (sav_path : string) (t : list (Msg Exn))
    (r : Json.result) :
  parse_sav_file sav_path = (t, Ok r) ->
  exists raw save party_raw box_raw dm t_party t_boxes,
    read_file sav_path = Ok raw
    /\ SaveFile raw = Ok save
    /\ pokemon_in_party (active_block save) = Ok party_raw
    /\ pokemon_in_storage (active_block save) (expanded_block save) = Ok box_raw
    /\ GameDataManager = Ok dm
    /\ show_party dm (omap (decoded party_parse) party_raw) = (t_party, Ok tt)
    /\ show_boxes dm (groups_of box_raw) = (t_boxes, Ok tt)
    /\ map_m (pokemon_to_dict dm) (omap (decoded party_parse) party_raw)
       = ([], Ok (Json.party r))
    /\ map_m (map_m (pokemon_to_dict dm)) (groups_of box_raw)
       = ([], Ok (Json.boxes r))
    /\ Json.total_pokemon r
       = length (omap (decoded party_parse) party_raw)
         + sum_list (map length (groups_of box_raw))
    /\ t = [MParsing sav_path; MFileSize (length raw); MLoaded; MExtractParty;
            MPartySlots (length party_raw)]
           ++ (party_loop party_raw).1
           ++ [MExtractBox; MBoxSlots (length box_raw)]
           ++ (box_loop box_raw).1
           ++ [MSuccess; MSummary;
               MSummaryParty (length (omap (decoded party_parse) party_raw));
               MSummaryBox (sum_list (map length (groups_of box_raw)));
               MSummaryTotal (Json.total_pokemon r)]
           ++ t_party ++ t_boxes
           ++ [MJsonRuleBlank; MJsonTitle; MJsonRule; MJson r].
Proof.
  unfold parse_sav_file. intros H.
  apply m_bind_inv_ok in H as (t0 & ? & t1 & ->%tell_inv_ok & H & ->).
  apply try_except_inv_ok in H. unfold parse_body in H.
  repeat (apply m_bind_inv_ok in H as (? & ? & ? & ? & H & ->); cbv beta in H).
  repeat match goal with
         | Hm : tell _ = (_, Ok _) |- _ => apply tell_inv_ok in Hm as ->
         | Hm : call _ = (_, Ok _) |- _ => apply call_inv_ok in Hm as [-> Hm]
         end.
  injection H as <- <-.
  repeat match goal with
         | Hm : party_loop ?s = (_, Ok _) |- _ =>
             rewrite party_loop_eq in Hm; injection Hm as <- <-
         | Hm : box_loop ?s = (_, Ok _) |- _ =>
             rewrite box_loop_eq in Hm; injection Hm as <- <-
         end.
  match goal with
  | Hpd : map_m (pokemon_to_dict _) _ = (?c, _) |- _ =>
      pose proof (dicts_silent _ _ _ _ Hpd); subst c
  end.
  match goal with
  | Hbd : map_m (map_m _) _ = (?d, _) |- _ =>
      pose proof (dictss_silent _ _ _ _ Hbd); subst d
  end.
  match goal with
  | Hsp : show_party _ _ = (?a, Ok ?u), Hsb : show_boxes _ _ = (?b, Ok ?v) |- _ =>
      destruct u, v; eexists _, _, _, _, _, a, b
  end.
  repeat (split; [eassumption|]).
  split; [reflexivity|].
  rewrite party_loop_eq, box_loop_eq. cbn [fst app Json.total_pokemon].
  repeat (progress (cbn [app]; rewrite <-?app_assoc)). reflexivity.
Qed.
End ParseLemmas.

Section ParseFailureLemmas.
Context {Exn : Type} {C : Collaborators Exn}.

Lemma map_m_dicts (dm : DataManager) (pokemon : list Pokemon) t dicts :
  map_m (pokemon_to_dict dm) pokemon = (t, Ok dicts) ->
  Forall2 (fun pkmn d => pokemon_to_dict dm pkmn = ([], Ok d)) pokemon dicts.
Proof.
  intros H%map_m_Forall2. eapply Forall2_impl; [exact H|].
  intros pkmn d [t' Hd]. cbv beta in Hd.
  by destruct (pokemon_to_dict_inv _ _ _ _ Hd) as [-> _].
Qed.

Lemma map_m_map_m_dicts (dm : DataManager) (groups : list (list Pokemon))
    t dictss :
  map_m (map_m (pokemon_to_dict dm)) groups = (t, Ok dictss) ->
  Forall2 (Forall2 (fun pkmn d => pokemon_to_dict dm pkmn = ([], Ok d)))
    groups dictss.
Proof.
  intros H%map_m_Forall2. eapply Forall2_impl; [exact H|].
  intros g ds [t' Hg]. by eapply map_m_dicts.
Qed.

(** A run ends in a value or in an exception. *)
Lemma run_cases {A} (m : M Exn A) :
  (exists t a, m = (t, Ok a)) \/ (exists t e, m = (t, Raise e)).
Proof. destruct m as [t [a|e]]; [left|right]; by eexists _, _. Qed.
End ParseFailureLemmas.

(** ** Loops without a loop state, and the two listings *)

Section ListingLemmas.
Context {Exn : Type} {C : Collaborators Exn}.




End ListingLemmas.

Section ShowLemmas.
Context {Exn : Type} {C : Collaborators Exn}.



End ShowLemmas.

(** ** Where the fatal line can come from *)

Section QuietLemmas.
Context {Exn : Type} {C : Collaborators Exn}.

Lemma quiet_bind {A B} (m : M Exn A) (f : A -> M Exn B) :
  quiet m -> (forall a, quiet (f a)) -> quiet (m_bind m f).
Proof.
  unfold quiet. destruct m as [t1 [a|e]]; cbn [m_bind fst]; [|done].
  intros H1 Hf. specialize (Hf a). destruct (f a) as [t2 r].
  cbn [fst] in *. by apply Forall_app.
Qed.

Lemma quiet_ret {A} (a : A) : quiet (m_ret (Exn:=Exn) a).
Proof. constructor. Qed.

Lemma quiet_call {A} (r : result Exn A) : quiet (call r).
Proof. constructor. Qed.

Lemma quiet_tell (m : Msg Exn) : is_fatal m = false -> quiet (tell m).
Proof. intros Hm. by repeat constructor. Qed.

Lemma quiet_for_enumerate {A St} (body : nat -> A -> St -> M Exn St) :
  (forall i x s, quiet (body i x s)) ->
  forall xs i s, quiet (for_enumerate body i xs s).
Proof.
  intros Hbody xs. induction xs as [|x xs IH]; intros i s; cbn [for_enumerate].
  - apply quiet_ret.
  - apply quiet_bind; [apply Hbody|]. intros s1. apply IH.
Qed.

Lemma quiet_map_m {A B} (f : A -> M Exn B) :
  (forall x, quiet (f x)) -> forall xs, quiet (map_m f xs).
Proof.
  intros Hf xs. induction xs as [|x xs IH]; cbn [map_m].
  - apply quiet_ret.
  - apply quiet_bind; [apply Hf|]. intros y.
    apply quiet_bind; [apply IH|]. intros ys. apply quiet_ret.
Qed.

Lemma quiet_party_loop (slots : list RawSlot) : quiet (party_loop slots).
Proof.
  apply quiet_for_enumerate. intros i p party. rewrite party_body_eq.
  unfold quiet, party_line. cbn [fst]. destruct (truthy p); [|constructor].
  destruct (party_parse p); by repeat constructor.
Qed.

Lemma quiet_box_loop (slots : list RawSlot) : quiet (box_loop slots).
Proof.
  apply quiet_bind.
  - apply quiet_for_enumerate. intros i p st. rewrite box_body_eq.
    unfold quiet, box_line, boundary_line. cbn [fst]. apply Forall_app. split.
    + destruct (truthy p); [|constructor].
      destruct (box_parse p); by repeat constructor.
    + destruct (_ =? _); by repeat constructor.
  - intros st. rewrite final_box_eq. unfold quiet, final_line. cbn [fst].
    destruct (current_box st); by repeat constructor.
Qed.

Lemma quiet_pokemon_to_dict (dm : DataManager) (pkmn : Pokemon) :
  quiet (pokemon_to_dict dm pkmn).
Proof.
  unfold pokemon_to_dict.
  repeat (apply quiet_bind;
          [first [apply quiet_call
                 |apply quiet_map_m; intros ?; apply quiet_call]|intros ?]).
  apply quiet_ret.
Qed.

Lemma quiet_show_party (dm : DataManager) (party : list Pokemon) :
  quiet (show_party dm party).
Proof.
  unfold show_party. destruct party as [|pkmn party]; [apply quiet_ret|].
  repeat (apply quiet_bind;
          [first [apply quiet_call|by apply quiet_tell]|intros ?]).
  apply quiet_ret.
Qed.

Lemma quiet_show_boxes (dm : DataManager) (boxes : list (list Pokemon)) :
  quiet (show_boxes dm boxes).
Proof.
  unfold show_boxes. destruct (any_box boxes); [|apply quiet_ret].
  apply quiet_bind; [by apply quiet_tell|]. intros _.
  apply quiet_for_enumerate. intros k box []. unfold show_box.
  destruct box as [|p box]; [apply quiet_ret|].
  apply quiet_bind; [by apply quiet_tell|]. intros _.
  apply quiet_for_enumerate. intros i pkmn []. unfold show_box_entry.
  apply quiet_bind; [apply quiet_call|]. intros n. by apply quiet_tell.
Qed.

(** The body of the outer [try] never prints the fatal line itself. *)
Lemma quiet_parse_body (sav_path : string) : quiet (parse_body sav_path).
Proof.
  unfold parse_body.
  repeat (apply quiet_bind;
          [first [apply quiet_call
                 |by apply quiet_tell
                 |apply quiet_party_loop
                 |apply quiet_box_loop
                 |apply quiet_show_party
                 |apply quiet_show_boxes
                 |apply quiet_map_m; intros ?; apply quiet_pokemon_to_dict
                 |apply quiet_map_m; intros ?; apply quiet_map_m; intros ?;
                  apply quiet_pokemon_to_dict]
          |intros ?]).
  apply quiet_ret.
Qed.
End QuietLemmas.

(** * Further properties, stated *)

(** X1: the party loop over two slot sequences put end to end returns the
    records of the first followed by the records of the second, and prints
    as many lines as the two runs together. *)
Theorem party_loop_app {Exn : Type} {C : Collaborators Exn}
    (xs ys : list RawSlot) :
  exists t1 t2 t px py,
    party_loop xs = (t1, Ok px)
    /\ party_loop ys = (t2, Ok py)
    /\ party_loop (xs ++ ys) = (t, Ok (px ++ py))
    /\ length t = length t1 + length t2.
Proof.
  eexists _, _, _, _, _. rewrite !party_loop_eq. split; [done|]. split; [done|].
  split; [by rewrite omap_app|].
  pose proof (party_lines_count_0 xs) as [Hx _].
  pose proof (party_lines_count_0 ys) as [Hy _].
  pose proof (party_lines_count_0 (xs ++ ys)) as [Hxy _].
  rewrite Hx, Hy, Hxy, List.filter_app, length_app. done.
Qed.

(** X2: the lines of the party loop name their slots.  "Party slot i: s
    (Level l)" is printed only when slot [i] is true and parses to a
    Pokemon of species [s] and level [l]; "Error parsing party slot i: e"
    is printed only for a true slot [i]; and when the parse of a true slot
    [i] raises [e], that line is printed.  No line names a false slot or an
    index past the end. *)
Theorem party_lines_name_their_slots {Exn : Type} {C : Collaborators Exn}
    (slots : list RawSlot) (i : nat) :
  (forall s l,
     MPartySlot i s l ∈ (party_loop slots).1 ->
     exists p pokemon, slots !! i = Some p /\ truthy p = true
       /\ party_parse p = Ok pokemon
       /\ s = species_id pokemon /\ l = level pokemon)
  /\ (forall e,
        MPartyError i e ∈ (party_loop slots).1 ->
        exists p, slots !! i = Some p /\ truthy p = true)
  /\ (forall p e,
        slots !! i = Some p -> truthy p = true -> party_parse p = Raise e ->
        MPartyError i e ∈ (party_loop slots).1).
Proof.
  rewrite party_loop_eq. cbn [fst]. split; [|split].
  - intros s l. rewrite elem_of_party_lines.
    intros (j & p & Hj & Hm). unfold party_line in Hm.
    destruct (truthy p) eqn:Hp; [|by apply elem_of_nil in Hm].
    destruct (party_parse p) as [pokemon|e'] eqn:Hparse;
      apply list_elem_of_singleton in Hm; [|done].
    injection Hm as -> -> ->. by exists p, pokemon.
  - intros e. rewrite elem_of_party_lines.
    intros (j & p & Hj & Hm). unfold party_line in Hm.
    destruct (truthy p) eqn:Hp; [|by apply elem_of_nil in Hm].
    destruct (party_parse p) as [pokemon|e'] eqn:Hparse;
      apply list_elem_of_singleton in Hm; [done|].
    injection Hm as -> ->. by exists p.
  - intros p e Hi Hp Hparse. rewrite elem_of_party_lines. exists i, p.
    split; [done|]. unfold party_line. rewrite Hp, Hparse.
    by apply list_elem_of_singleton.
Qed.

(** X3: the party loop prints exactly one line per true slot, and every
    true slot is accounted for: there are no more records and no more
    error lines than true slots, and the records returned and the error
    lines printed together are at least as many as the true slots. *)
Theorem party_slots_are_accounted_for {Exn : Type} {C : Collaborators Exn}
    (slots : list RawSlot) :
  exists t party,
    party_loop slots = (t, Ok party)
    /\ length t = length (List.filter truthy slots)
    /\ length party <= length (List.filter truthy slots)
    /\ length (List.filter is_error_line t) <= length (List.filter truthy slots)
    /\ length (List.filter truthy slots)
       <= length party + length (List.filter is_error_line t).
Proof.
  eexists _, _. split; [apply party_loop_eq|].
  pose proof (party_lines_count_0 slots) as [Hlines Hsum].
  split; [done|]. lia.
Qed.

(** X4: the lines of the box loop name their slots.  "Box Pokemon i: s
    (Level l)" is printed only when slot [i] is true and parses to a
    Pokemon of species [s] and level [l]: the number in that line is the
    index of the slot in the flat sequence, not the number of Pokemon found
    so far.  "Error parsing box slot i: e" is printed only for a true slot
    [i]; and when the parse of a true slot [i] raises [e], that line is
    printed. *)
Theorem box_lines_name_their_slots {Exn : Type} {C : Collaborators Exn}
    (slots : list RawSlot) (i : nat) :
  (forall s l,
     MBoxPokemon i s l ∈ (box_loop slots).1 ->
     exists p pokemon, slots !! i = Some p /\ truthy p = true
       /\ box_parse p = Ok pokemon
       /\ s = species_id pokemon /\ l = level pokemon)
  /\ (forall e,
        MBoxError i e ∈ (box_loop slots).1 ->
        exists p, slots !! i = Some p /\ truthy p = true)
  /\ (forall p e,
        slots !! i = Some p -> truthy p = true -> box_parse p = Raise e ->
        MBoxError i e ∈ (box_loop slots).1).
Proof.
  split; [|split].
  - intros s l. rewrite elem_of_box_loop.
    intros [(j & p & Hj & [Hm|Hm])|[_ ?]]; [| |done].
    + unfold box_line in Hm. rewrite (box_count_at _ _ _ Hj) in Hm.
      destruct (truthy p) eqn:Hp; [|by apply elem_of_nil in Hm].
      destruct (box_parse p) as [pokemon|e'] eqn:Hparse;
        apply list_elem_of_singleton in Hm; [|done].
      injection Hm as -> -> ->. by exists p, pokemon.
    + unfold boundary_line in Hm.
      destruct (_ =? _); [by apply list_elem_of_singleton in Hm|].
      by apply elem_of_nil in Hm.
  - intros e. rewrite elem_of_box_loop.
    intros [(j & p & Hj & [Hm|Hm])|[_ ?]]; [| |done].
    + unfold box_line in Hm.
      destruct (truthy p) eqn:Hp; [|by apply elem_of_nil in Hm].
      destruct (box_parse p) as [pokemon|e'] eqn:Hparse;
        apply list_elem_of_singleton in Hm; [done|].
      injection Hm as -> ->. by exists p.
    + unfold boundary_line in Hm.
      destruct (_ =? _); [by apply list_elem_of_singleton in Hm|].
      by apply elem_of_nil in Hm.
  - intros p e Hi Hp Hparse. rewrite elem_of_box_loop. left.
    exists i, p. split; [done|]. left.
    unfold box_line. rewrite Hp, Hparse. by apply list_elem_of_singleton.
Qed.

(** X5: "Box k complete: n Pokemon found" is printed exactly for the full
    runs of thirty slots, with [k] the index of the run and [n] the number
    of records that slots [30 * k] to [30 * k + 29] decoded to. *)
Theorem box_complete_lines_are_true {Exn : Type} {C : Collaborators Exn}
    (slots : list RawSlot) (k n : nat) :
  MBoxComplete k n ∈ (box_loop slots).1
  <-> k < length slots / 30
      /\ n = length (omap (decoded box_parse) (chunk k slots)).
Proof.
  set (len := length slots). divmod30 len.
  rewrite elem_of_box_loop. split.
  - intros [(j & p & Hj & [Hm|Hm])|[_ ?]]; [| |done].
    + unfold box_line in Hm. destruct (truthy p); [|by apply elem_of_nil in Hm].
      destruct (box_parse p); by apply list_elem_of_singleton in Hm.
    + unfold boundary_line in Hm. rewrite (box_count_at _ _ _ Hj) in Hm.
      destruct ((j + 1) mod 30 =? 0) eqn:Hmod; [|by apply elem_of_nil in Hm].
      apply Nat.eqb_eq in Hmod. apply list_elem_of_singleton in Hm.
      pose proof (lookup_lt_Some _ _ _ Hj) as Hlt. fold len in Hlt.
      rewrite box_state_at in Hm by (fold len; lia).
      cbn [boxes current_box] in Hm.
      rewrite (closing_slot_group _ _ _ Hj Hmod) in Hm.
      rewrite length_map, length_seq in Hm. injection Hm as -> ->.
      change (Nat.divmod j 29 0 29).1 with (j / 30).
      divmod30 j. divmod30 (j + 1). split; [lia|done].
  - intros [Hk ->]. left.
    assert (Hlt : 30 * k + 29 < length slots) by (fold len; lia).
    destruct (lookup_lt_is_Some_2 _ _ Hlt) as [p Hj].
    exists (30 * k + 29), p. split; [done|]. right.
    divmod30 (30 * k + 29). divmod30 (30 * k + 29 + 1).
    assert (Hmod : (30 * k + 29 + 1) mod 30 = 0) by lia.
    assert (Hdiv : (30 * k + 29) / 30 = k) by lia.
    unfold boundary_line. rewrite (box_count_at _ _ _ Hj).
    rewrite Hmod. cbn [Nat.eqb].
    rewrite box_state_at by lia. cbn [boxes current_box].
    rewrite (closing_slot_group _ _ _ Hj Hmod).
    rewrite length_map, length_seq, Hdiv. by apply list_elem_of_singleton.
Qed.

(** X6: "Final box complete: n Pokemon found" is printed exactly when the
    slots after the last boundary decoded to at least one record, with [n]
    the number of those records. *)
Theorem final_box_line_is_true {Exn : Type} {C : Collaborators Exn}
    (slots : list RawSlot) (n : nat) :
  MFinalBox n ∈ (box_loop slots).1
  <-> omap (decoded box_parse) (drop (30 * (length slots / 30)) slots) <> []
      /\ n = length (omap (decoded box_parse)
                       (drop (30 * (length slots / 30)) slots)).
Proof.
  rewrite elem_of_box_loop. fold (open_box slots). split.
  - intros [(j & p & Hj & [Hm|Hm])|[Hne Hm]].
    + unfold box_line in Hm. destruct (truthy p); [|by apply elem_of_nil in Hm].
      destruct (box_parse p); by apply list_elem_of_singleton in Hm.
    + unfold boundary_line in Hm.
      destruct (_ =? _); [by apply list_elem_of_singleton in Hm|].
      by apply elem_of_nil in Hm.
    + injection Hm as ->. by split.
  - intros [Hne ->]. by right.
Qed.

(** X7: every true box slot is accounted for: the groups returned hold no
    more records, and the loop prints no more error lines, than there are
    true slots, and the records of the groups and the error lines together
    are at least as many as the true slots. *)
Theorem box_slots_are_accounted_for {Exn : Type} {C : Collaborators Exn}
    (slots : list RawSlot) :
  exists t groups,
    box_loop slots = (t, Ok groups)
    /\ sum_list (map length groups) <= length (List.filter truthy slots)
    /\ length (List.filter is_error_line t) <= length (List.filter truthy slots)
    /\ length (List.filter truthy slots)
       <= sum_list (map length groups) + length (List.filter is_error_line t).
Proof.
  eexists _, _. split; [apply box_loop_eq|].
  rewrite <-concat_length_sum, concat_groups_of, List.filter_app, length_app.
  pose proof (box_trace_errors 0 slots box_init) as Herr.
  assert (Hfinal : List.filter is_error_line
                     match open_box slots with
                     | [] => []
                     | _ :: _ => [MFinalBox (Exn:=Exn) (length (open_box slots))]
                     end = []) by (by destruct (open_box slots)).
  rewrite Hfinal. cbn [length]. lia.
Qed.

(** X8: no group of the output has more than thirty records, and an empty
    group can only be the group of a full run of thirty slots. *)
Theorem groups_hold_at_most_thirty {Exn : Type} {C : Collaborators Exn}
    (slots : list RawSlot) :
  exists t groups,
    box_loop slots = (t, Ok groups)
    /\ forall k g, groups !! k = Some g ->
         length g <= 30 /\ (g = [] -> k < length slots / 30).
Proof.
  eexists _, _. split; [apply box_loop_eq|]. intros k g Hk.
  pose proof (lookup_groups_of slots k) as Hgroup. rewrite Hk in Hgroup.
  cbn [default from_option id] in Hgroup. split.
  - rewrite Hgroup. unfold group.
    pose proof (omap_decoded_length box_parse (chunk k slots)) as Hle.
    unfold chunk in Hle at 2. rewrite length_take in Hle. lia.
  - intros ->. apply lookup_lt_Some in Hk as Hlt.
    rewrite length_groups_of in Hlt.
    destruct (decide (k < length slots / 30)) as [|Hge]; [done|].
    exfalso. unfold groups_of in Hk.
    rewrite lookup_app_r in Hk by (rewrite length_map, length_seq; lia).
    rewrite length_map, length_seq in Hk.
    destruct (omap (decoded box_parse) (drop _ _)) as [|x rest]; [done|].
    destruct (k - length slots / 30) as [|j]; [|done].
    by injection Hk.
Qed.

(** X9: box grouping composes across box boundaries: when the first
    sequence fills whole boxes (its length is a multiple of thirty), the
    groups of the two sequences put end to end are the groups of the first
    followed by the groups of the second. *)
Theorem box_loop_app_full_boxes {Exn : Type} {C : Collaborators Exn}
    (xs ys : list RawSlot) :
  length xs mod 30 = 0 ->
  exists t1 t2 t gx gy,
    box_loop xs = (t1, Ok gx)
    /\ box_loop ys = (t2, Ok gy)
    /\ box_loop (xs ++ ys) = (t, Ok (gx ++ gy)).
Proof.
  intros Hmod. eexists _, _, _, _, _. rewrite !box_loop_eq.
  split; [done|]. split; [done|]. f_equal. f_equal.
  apply (groups_of_full_boxes (length xs / 30)).
  divmod30 (length xs). lia.
Qed.

(** X10: the box loop returns no group at all exactly when there are fewer
    than thirty slots and none of them decoded to a record. *)
Theorem no_groups_iff {Exn : Type} {C : Collaborators Exn}
    (slots : list RawSlot) :
  exists t groups,
    box_loop slots = (t, Ok groups)
    /\ (groups = [] <-> length slots < 30
                        /\ omap (decoded box_parse) slots = []).
Proof.
  eexists _, _. split; [apply box_loop_eq|].
  set (n := length slots). divmod30 n.
  pose proof (length_groups_of slots) as Hlen. fold n in Hlen. split.
  - intros Hnil. rewrite Hnil in Hlen. cbn [length] in Hlen.
    destruct (omap (decoded box_parse) (drop (30 * (n / 30)) slots)) eqn:Hrest;
      [|lia].
    assert (Hq : n / 30 = 0) by lia. rewrite Hq in Hrest.
    replace (30 * 0) with 0 in Hrest by lia. rewrite drop_0 in Hrest.
    split; [lia|done].
  - intros [Hlt Hnone]. apply length_zero_iff_nil.
    assert (Hq : n / 30 = 0) by lia. rewrite Hlen, Hq.
    replace (30 * 0) with 0 by lia. by rewrite drop_0, Hnone.
Qed.

(** X11: a dictionary [pokemon_to_dict] returns carries the names the data
    manager gave: the lower-cased species name, the ability name looked up
    with the species name as returned (not lower-cased), the item name, and
    one move name per positive move id, in order.  Move ids are passed
    through, so [move_names] can be shorter than [move_ids].  Nothing is
    printed. *)
Theorem pokemon_to_dict_names {Exn : Type} {C : Collaborators Exn}
    (dm : DataManager) (pkmn : Pokemon) (t : list (Msg Exn)) (d : Json.pokemon) :
  pokemon_to_dict dm pkmn = (t, Ok d) ->
  t = []
  /\ (exists species_name,
        get_species_name dm (species_id pkmn) = Ok species_name
        /\ Json.name d = lower species_name
        /\ get_ability_name dm (ability_index pkmn) species_name
             (has_ha_flag pkmn) = Ok (Json.ability_name d))
  /\ get_item_name dm (held_item_id pkmn) = Ok (Json.held_item_name d)
  /\ Forall2 (fun id n => get_move_name dm id = Ok n)
       (filter (fun id => (0 < id)%Z) (Json.move_ids d)) (Json.move_names d)
  /\ Json.move_ids d = move_ids pkmn
  /\ length (Json.move_names d) <= length (Json.move_ids d).
Proof.
  intros (-> & names & sname & aname & iname & Hmoves & Hs & Ha & Hi & ->)
    %pokemon_to_dict_inv.
  cbn. split; [done|]. split; [by exists sname|]. split; [done|].
  split; [done|]. split; [done|].
  rewrite <-(Forall2_length _ _ _ Hmoves). apply length_filter.
Qed.

(** X12: [pokemon_to_dict] returns exactly when the data manager returns a
    name for the species, for the ability, for the item and for every
    positive move id; a move id of zero or below is never looked up. *)
Theorem pokemon_to_dict_returns_iff {Exn : Type} {C : Collaborators Exn}
    (dm : DataManager) (pkmn : Pokemon) :
  (exists t d, pokemon_to_dict dm pkmn = (t, Ok d))
  <-> Forall (fun id => exists n, get_move_name dm id = Ok n)
        (filter (fun id => (0 < id)%Z) (move_ids pkmn))
      /\ (exists species_name,
            get_species_name dm (species_id pkmn) = Ok species_name
            /\ exists ability_name,
                 get_ability_name dm (ability_index pkmn) species_name
                   (has_ha_flag pkmn) = Ok ability_name)
      /\ exists item_name, get_item_name dm (held_item_id pkmn) = Ok item_name.
Proof.
  split.
  - intros (t & d & (_ & names & sname & aname & iname & Hmoves & Hs & Ha & Hi & _)
             %pokemon_to_dict_inv).
    split; [|split; [by exists sname; split; [|exists aname]|by exists iname]].
    clear -Hmoves. induction Hmoves; constructor; [by eexists|done].
  - intros (Hmoves & (sname & Hs & aname & Ha) & iname & Hi).
    destruct (map_m_call_returns (get_move_name dm) _ Hmoves) as [names Hnames].
    unfold pokemon_to_dict. rewrite Hnames, Hs, Hi. cbn [m_bind call].
    rewrite Ha. cbn [m_bind call m_ret]. by eexists _, _.
Qed.

(** X13: the [name] entry of a dictionary has no ASCII capital letter. *)
Theorem dict_name_is_lower_case {Exn : Type} {C : Collaborators Exn}
    (dm : DataManager) (pkmn : Pokemon) (t : list (Msg Exn)) (d : Json.pokemon) :
  pokemon_to_dict dm pkmn = (t, Ok d) -> has_upper (Json.name d) = false.
Proof.
  intros (_ & names & sname & aname & iname & _ & _ & _ & _ & ->)
    %pokemon_to_dict_inv.
  apply lower_has_no_upper.
Qed.

(** X14: whatever makes [parse_sav_file] raise, the first line printed is
    "Parsing .sav file", the last is "Error parsing save file" with the
    exception, and that same exception is the one raised. *)
Theorem failure_is_reported_last {Exn : Type} {C : Collaborators Exn}
    (sav_path : string) (t : list (Msg Exn)) (e : Exn) :
  parse_sav_file sav_path = (t, Raise e) ->
  exists t', t = MParsing sav_path :: t' ++ [MFatal e].
Proof.
  unfold parse_sav_file, try_except, m_bind, tell.
  destruct (parse_body sav_path) as [t1 [r|e']]; [done|].
  cbn. intros [= <- <-]. by exists t1.
Qed.

(** X15: the transcript of a successful parse.  The lines come in this
    order: the file and slot counts, the lines of the party loop, the
    lines of the box loop, the summary, the party listing, the box listing,
    and at the very end the JSON of the result that is returned; building
    the dictionaries prints nothing.  The three numbers of the summary are
    the party size, the box total and the [total_pokemon] of that
    result. *)
Theorem success_transcript {Exn : Type} {C : Collaborators Exn}
    (sav_path : string) (t : list (Msg Exn)) (r : Json.result) :
  parse_sav_file sav_path = (t, Ok r) ->
  exists raw save party_raw box_raw dm,
    read_file sav_path = Ok raw
    /\ SaveFile raw = Ok save
    /\ pokemon_in_party (active_block save) = Ok party_raw
    /\ pokemon_in_storage (active_block save) (expanded_block save) = Ok box_raw
    /\ GameDataManager = Ok dm
    /\ t = [MParsing sav_path; MFileSize (length raw); MLoaded; MExtractParty;
            MPartySlots (length party_raw)]
           ++ (party_loop party_raw).1
           ++ [MExtractBox; MBoxSlots (length box_raw)]
           ++ (box_loop box_raw).1
           ++ [MSuccess; MSummary;
               MSummaryParty (length (Json.party r));
               MSummaryBox (sum_list (map length (Json.boxes r)));
               MSummaryTotal (Json.total_pokemon r)]
           ++ (show_party dm (omap (decoded party_parse) party_raw)).1
           ++ (show_boxes dm (groups_of box_raw)).1
           ++ [MJsonRuleBlank; MJsonTitle; MJsonRule; MJson r].
Proof.
  intros (raw & save & party_raw & box_raw & dm & tsp & tsb & Hread & Hsave
          & Hparty & Hbox & Hdm & Hsp & Hsb & Hpd & Hbd & _ & ->)
    %parse_success_inv.
  exists raw, save, party_raw, box_raw, dm.
  repeat (split; [done|]). rewrite Hsp, Hsb. cbn [fst].
  by rewrite (map_m_length _ _ _ _ Hpd), (map_m_map_m_lengths _ _ _ _ Hbd).
Qed.

(** X16: the result of a successful parse, end to end.  Its party is the
    dictionaries of the records the party slots decoded to, in slot order,
    and its boxes are, group by group, the dictionaries of the records the
    box slots decoded to. *)
Theorem result_is_the_decoded_slots {Exn : Type} {C : Collaborators Exn}
    (sav_path : string) (t : list (Msg Exn)) (r : Json.result) :
  parse_sav_file sav_path = (t, Ok r) ->
  exists raw save party_raw box_raw dm,
    read_file sav_path = Ok raw
    /\ SaveFile raw = Ok save
    /\ pokemon_in_party (active_block save) = Ok party_raw
    /\ pokemon_in_storage (active_block save) (expanded_block save) = Ok box_raw
    /\ GameDataManager = Ok dm
    /\ Forall2 (fun pkmn d => pokemon_to_dict dm pkmn = ([], Ok d))
         (omap (decoded party_parse) party_raw) (Json.party r)
    /\ Forall2 (Forall2 (fun pkmn d => pokemon_to_dict dm pkmn = ([], Ok d)))
         (groups_of box_raw) (Json.boxes r).
Proof.
  intros (raw & save & party_raw & box_raw & dm & tsp & tsb & Hread & Hsave
          & Hparty & Hbox & Hdm & _ & _ & Hpd & Hbd & _ & _)%parse_success_inv.
  exists raw, save, party_raw, box_raw, dm.
  repeat (split; [done|]).
  split; [by eapply map_m_dicts|by eapply map_m_map_m_dicts].
Qed.

(** X17: [total_pokemon] counts the slots that decoded: it is the number of
    party slots plus the number of box slots that are true and parse, and
    so never more than the number of slots the extractors supplied. *)
Theorem total_counts_decoded_slots {Exn : Type} {C : Collaborators Exn}
    (sav_path : string) (t : list (Msg Exn)) (r : Json.result) :
  parse_sav_file sav_path = (t, Ok r) ->
  exists raw save party_raw box_raw,
    read_file sav_path = Ok raw
    /\ SaveFile raw = Ok save
    /\ pokemon_in_party (active_block save) = Ok party_raw
    /\ pokemon_in_storage (active_block save) (expanded_block save) = Ok box_raw
    /\ Json.total_pokemon r
       = length (omap (decoded party_parse) party_raw)
         + length (omap (decoded box_parse) box_raw)
    /\ Json.total_pokemon r <= length party_raw + length box_raw.
Proof.
  intros (raw & save & party_raw & box_raw & dm & tsp & tsb & Hread & Hsave
          & Hparty & Hbox & _ & _ & _ & _ & _ & Htotal & _)%parse_success_inv.
  exists raw, save, party_raw, box_raw.
  repeat (split; [done|]).
  rewrite <-concat_length_sum, concat_groups_of in Htotal.
  split; [done|]. rewrite Htotal.
  pose proof (omap_decoded_length party_parse party_raw).
  pose proof (omap_decoded_length box_parse box_raw). lia.
Qed.

(** X18: decoding failures are isolated per slot, name lookups are not:
    when the species name of one decoded record, of the party or of a box,
    cannot be looked up, the whole parse raises and no result is
    returned. *)
Theorem one_unknown_species_fails_the_parse {Exn : Type} {C : Collaborators Exn}
    (sav_path : string) (raw : list Z) (save : Save)
    (party_raw box_raw : list RawSlot) (dm : DataManager)
    (pkmn : Pokemon) (e : Exn) :
  read_file sav_path = Ok raw ->
  SaveFile raw = Ok save ->
  pokemon_in_party (active_block save) = Ok party_raw ->
  pokemon_in_storage (active_block save) (expanded_block save) = Ok box_raw ->
  GameDataManager = Ok dm ->
  pkmn ∈ omap (decoded party_parse) party_raw
  \/ pkmn ∈ omap (decoded box_parse) box_raw ->
  get_species_name dm (species_id pkmn) = Raise e ->
  exists t e', parse_sav_file sav_path = (t, Raise e').
Proof.
  intros Hread Hsave Hparty Hbox Hdm Hin Hname.
  destruct (run_cases (parse_sav_file sav_path)) as [(t & r & Hrun)|]; [|done].
  exfalso.
  apply parse_success_inv in Hrun
    as (raw' & save' & party_raw' & box_raw' & dm' & tsp & tsb & Hread' & Hsave'
        & Hparty' & Hbox' & Hdm' & _ & _ & Hpd & Hbd & _ & _).
  rewrite Hread in Hread'. injection Hread' as <-.
  rewrite Hsave in Hsave'. injection Hsave' as <-.
  rewrite Hparty in Hparty'. injection Hparty' as <-.
  rewrite Hbox in Hbox'. injection Hbox' as <-.
  rewrite Hdm in Hdm'. injection Hdm' as <-.
  assert (Hdict : exists d, pokemon_to_dict dm pkmn = ([], Ok d)).
  { destruct Hin as [Hin|Hin].
    - apply map_m_dicts in Hpd. apply list_elem_of_lookup in Hin as [i Hi].
      destruct (Forall2_lookup_l _ _ _ _ _ Hpd Hi) as (d & _ & Hd). by exists d.
    - apply map_m_map_m_dicts in Hbd.
      rewrite <-concat_groups_of in Hin.
      apply list_elem_of_In, in_concat in Hin as (g & Hg & Hin).
      apply list_elem_of_In, list_elem_of_lookup in Hg as [k Hk].
      destruct (Forall2_lookup_l _ _ _ _ _ Hbd Hk) as (ds & _ & Hds).
      apply list_elem_of_In, list_elem_of_lookup in Hin as [i Hi].
      destruct (Forall2_lookup_l _ _ _ _ _ Hds Hi) as (d & _ & Hd). by exists d. }
  destruct Hdict as [d Hd].
  apply pokemon_to_dict_inv in Hd as (_ & _ & sname & _ & _ & _ & Hs & _).
  congruence.
Qed.

(** X19: when the data manager cannot be constructed, the party and box
    loops have already run and the summary with "SUCCESS" has already been
    printed; the parse then raises and the decoded records are lost. *)
Theorem late_failure_after_success_line {Exn : Type} {C : Collaborators Exn}
    (sav_path : string) (raw : list Z) (save : Save)
    (party_raw box_raw : list RawSlot) (e : Exn) :
  read_file sav_path = Ok raw ->
  SaveFile raw = Ok save ->
  pokemon_in_party (active_block save) = Ok party_raw ->
  pokemon_in_storage (active_block save) (expanded_block save) = Ok box_raw ->
  GameDataManager = Raise e ->
  parse_sav_file sav_path
  = ([MParsing sav_path; MFileSize (length raw); MLoaded; MExtractParty;
      MPartySlots (length party_raw)]
     ++ (party_loop party_raw).1
     ++ [MExtractBox; MBoxSlots (length box_raw)]
     ++ (box_loop box_raw).1
     ++ [MSuccess; MSummary;
         MSummaryParty (length (omap (decoded party_parse) party_raw));
         MSummaryBox (length (omap (decoded box_parse) box_raw));
         MSummaryTotal (length (omap (decoded party_parse) party_raw)
                        + length (omap (decoded box_parse) box_raw));
         MFatal e],
     Raise e).
Proof.
  intros Hread Hsave Hparty Hbox Hdm.
  unfold parse_sav_file, parse_body.
  rewrite Hread. cbn [m_bind call tell]. rewrite Hsave. cbn [m_bind call tell].
  rewrite Hparty. cbn [m_bind call tell]. rewrite party_loop_eq.
  cbn [m_bind call tell]. rewrite Hbox. cbn [m_bind call tell].
  rewrite box_loop_eq. cbn [m_bind call tell]. rewrite Hdm.
  cbn [m_bind call tell try_except reraise fst].
  rewrite <-concat_length_sum, concat_groups_of.
  f_equal. repeat (progress (cbn [app]; rewrite <-?app_assoc)). reflexivity.
Qed.

(** X20: when the file cannot be read, two lines are printed and the
    exception is raised; [SaveFile] is not consulted. *)
Theorem unreadable_file_is_fatal {Exn : Type} {C : Collaborators Exn}
    (sav_path : string) (e : Exn) :
  read_file sav_path = Raise e ->
  parse_sav_file sav_path = ([MParsing sav_path; MFatal e], Raise e).
Proof.
  intros Hread. unfold parse_sav_file, parse_body. by rewrite Hread.
Qed.


(** X23: "Error parsing save file: e" is printed exactly when
    [parse_sav_file] raises [e]: never on a parse that returns, never for
    a slot error that one of the loops has caught, and never with another
    exception than the one raised. *)
Theorem fatal_line_iff_raised {Exn : Type} {C : Collaborators Exn}
    (sav_path : string) (e : Exn) :
  MFatal e ∈ (parse_sav_file sav_path).1
  <-> (parse_sav_file sav_path).2 = Raise e.
Proof.
  pose proof (quiet_parse_body sav_path) as Hquiet.
  unfold parse_sav_file, try_except, m_bind, tell, quiet in *.
  destruct (parse_body sav_path) as [t1 [r|e']]; cbn [fst snd app] in *.
  - split; [|done]. intros [?|Hin]%elem_of_cons; [done|].
    rewrite Forall_forall in Hquiet. by specialize (Hquiet _ Hin).
  - split.
    + intros [?|[Hin|Hin%list_elem_of_singleton]%elem_of_app]%elem_of_cons;
        [done| |by injection Hin as ->].
      rewrite Forall_forall in Hquiet. by specialize (Hquiet _ Hin).
    + intros [= ->]. apply elem_of_cons. right. apply elem_of_app. right.
      by apply list_elem_of_singleton.
Qed.

(** X24: the party listing shows the first party member only.  When it
    returns, its single entry line is entry 1 with the species name and
    level of the first member, every one of the nine debugging lines is
    about that member, and there are eleven lines for any non-empty party
    and none for an empty one; the other members are never looked up. *)
Theorem party_listing_shows_the_first_member {Exn : Type} {C : Collaborators Exn}
    (dm : DataManager) (party : list Pokemon) (t : list (Msg Exn)) (u : unit) :
  show_party dm party = (t, Ok u) ->
  (forall pos species_name lvl,
     MPartyEntry pos species_name lvl ∈ t
     <-> exists pkmn rest,
           party = pkmn :: rest /\ pos = 1
           /\ get_species_name dm (species_id pkmn) = Ok species_name
           /\ lvl = level pkmn)
  /\ (forall line pkmn, MDebug line pkmn ∈ t <-> exists rest, party = pkmn :: rest)
  /\ length t = match party with [] => 0 | _ :: _ => 11 end.
Proof.
  unfold show_party. destruct party as [|p rest].
  - intros [= <- _]. split; [|split; [|done]].
    + intros pos n lvl. split; [by intros ?%elem_of_nil|by intros (? & ? & ? & _)].
    + intros line pkmn. split; [by intros ?%elem_of_nil|by intros (? & ?)].
  - destruct (get_species_name dm (species_id p)) as [n|e] eqn:Hn; [|done].
    cbn. intros [= <- _]. split; [|split; [|done]].
    + intros pos n' lvl. rewrite !elem_of_cons, elem_of_nil. split.
      * intros H. exists p, rest.
        repeat (destruct H as [H|H]; try discriminate H); [|done].
        by injection H as -> -> ->.
      * intros (p' & rest' & [= <- <-] & -> & Hn' & ->).
        rewrite Hn in Hn'. injection Hn' as <-. right. by left.
    + intros line pkmn. rewrite !elem_of_cons, elem_of_nil. split.
      * intros H. exists rest.
        repeat (destruct H as [H|H]; try discriminate H);
          try (by injection H as _ ->); done.
      * intros (rest' & [= <- <-]). destruct line; naive_solver.
Qed.

(** * The further properties at work in the two worlds *)

Section MoreExamples.
Import Demo.

Lemma demo_run :
  parse_sav_file "demo.sav" = ((parse_sav_file "demo.sav").1, Ok demo_result).
Proof. vm_compute. reflexivity. Defined.

(** The damaged record in slot 3 of the demo party and of the demo
    boxes. *)
Lemma party_lines_name_their_slots_witness :
  party_slots party_windows !! 3 = Some tampered_slot
  /\ truthy tampered_slot = true
  /\ party_parse tampered_slot = Raise (Decode Checksum)
  /\ MPartyError 3 (Decode Checksum)
       ∈ (party_loop (party_slots party_windows)).1.
Proof.
  destruct tampered_slot_fails as [Hp He].
  assert (Hi : party_slots party_windows !! 3 = Some tampered_slot)
    by (vm_compute; reflexivity).
  split; [exact Hi|]. split; [exact Hp|]. split; [exact He|].
  exact (proj2 (proj2 (party_lines_name_their_slots (C:=world)
                         (party_slots party_windows) 3))
           tampered_slot (Decode Checksum) Hi Hp He).
Defined.

Lemma box_lines_name_their_slots_witness :
  box_slots !! 3 = Some tampered_slot
  /\ truthy tampered_slot = true
  /\ box_parse tampered_slot = Raise (Decode Checksum)
  /\ MBoxError 3 (Decode Checksum) ∈ (box_loop box_slots).1.
Proof.
  destruct tampered_slot_fails as [Hp He].
  assert (Hi : box_slots !! 3 = Some tampered_slot)
    by (vm_compute; reflexivity).
  split; [exact Hi|]. split; [exact Hp|]. split; [exact He|].
  exact (proj2 (proj2 (box_lines_name_their_slots (C:=world) box_slots 3))
           tampered_slot (Decode Checksum) Hi Hp He).
Defined.

Lemma box_loop_app_full_boxes_witness :
  length (replicate 30 empty_slot) mod 30 = 0
  /\ exists t1 t2 t gx gy,
       box_loop (replicate 30 empty_slot) = (t1, Ok gx)
       /\ box_loop [pikachu_slot] = (t2, Ok gy)
       /\ box_loop (replicate 30 empty_slot ++ [pikachu_slot]) = (t, Ok (gx ++ gy)).
Proof.
  assert (Hmod : length (replicate 30 empty_slot) mod 30 = 0)
    by (vm_compute; reflexivity).
  split; [exact Hmod|].
  exact (box_loop_app_full_boxes (replicate 30 empty_slot) [pikachu_slot] Hmod).
Defined.

Lemma bulbasaur_to_dict :
  pokemon_to_dict (C:=world) (tt : @DataManager Error world) bulbasaur_pokemon
  = ([], Ok bulbasaur_dict).
Proof. vm_compute. reflexivity. Defined.

(** Bulbasaur has two moves and two unused move slots. *)
Lemma pokemon_to_dict_names_witness :
  pokemon_to_dict (C:=world) (tt : @DataManager Error world) bulbasaur_pokemon
  = ([], Ok bulbasaur_dict)
  /\ Json.name bulbasaur_dict = lower "Bulbasaur"
  /\ Json.move_ids bulbasaur_dict = [33; 45; 0; 0]%Z
  /\ length (Json.move_names bulbasaur_dict) <= length (Json.move_ids bulbasaur_dict).
Proof.
  split; [exact bulbasaur_to_dict|].
  destruct (pokemon_to_dict_names (C:=world) _ _ _ _ bulbasaur_to_dict)
    as (_ & (n & Hn & Hname & _) & _ & _ & Hids & Hlen).
  split; [|split; [exact Hids|exact Hlen]].
  rewrite Hname. vm_compute in Hn. injection Hn as <-. reflexivity.
Defined.

Lemma dict_name_is_lower_case_witness :
  pokemon_to_dict (C:=world) (tt : @DataManager Error world) bulbasaur_pokemon
  = ([], Ok bulbasaur_dict)
  /\ has_upper (Json.name bulbasaur_dict) = false.
Proof.
  split; [exact bulbasaur_to_dict|].
  exact (dict_name_is_lower_case (C:=world) _ _ _ _ bulbasaur_to_dict).
Defined.

Lemma corrupt_run :
  parse_sav_file "corrupt.sav"
  = ([MParsing "corrupt.sav"; MFileSize 3; MFatal CorruptImage],
     Raise CorruptImage).
Proof. vm_compute. reflexivity. Defined.

Lemma failure_is_reported_last_witness :
  parse_sav_file "corrupt.sav"
  = ([MParsing "corrupt.sav"; MFileSize 3; MFatal CorruptImage],
     Raise CorruptImage)
  /\ exists t',
       [MParsing "corrupt.sav"; MFileSize 3; MFatal CorruptImage]
       = MParsing "corrupt.sav" :: t' ++ [MFatal CorruptImage].
Proof.
  split; [exact corrupt_run|].
  exact (failure_is_reported_last "corrupt.sav" _ CorruptImage corrupt_run).
Defined.

Lemma success_transcript_witness :
  parse_sav_file "demo.sav" = ((parse_sav_file "demo.sav").1, Ok demo_result)
  /\ exists raw save party_raw box_raw dm,
       read_file "demo.sav" = Ok raw
       /\ SaveFile raw = Ok save
       /\ pokemon_in_party (active_block save) = Ok party_raw
       /\ pokemon_in_storage (active_block save) (expanded_block save) = Ok box_raw
       /\ GameDataManager = Ok dm
       /\ (parse_sav_file "demo.sav").1
          = [MParsing "demo.sav"; MFileSize (length raw); MLoaded; MExtractParty;
             MPartySlots (length party_raw)]
            ++ (party_loop party_raw).1
            ++ [MExtractBox; MBoxSlots (length box_raw)]
            ++ (box_loop box_raw).1
            ++ [MSuccess; MSummary;
                MSummaryParty (length (Json.party demo_result));
                MSummaryBox (sum_list (map length (Json.boxes demo_result)));
                MSummaryTotal (Json.total_pokemon demo_result)]
            ++ (show_party dm (omap (decoded party_parse) party_raw)).1
            ++ (show_boxes dm (groups_of box_raw)).1
            ++ [MJsonRuleBlank; MJsonTitle; MJsonRule; MJson demo_result].
Proof.
  split; [exact demo_run|].
  exact (success_transcript "demo.sav" _ demo_result demo_run).
Defined.

Lemma result_is_the_decoded_slots_witness :
  parse_sav_file "demo.sav" = ((parse_sav_file "demo.sav").1, Ok demo_result)
  /\ exists raw save party_raw box_raw dm,
       read_file "demo.sav" = Ok raw
       /\ SaveFile raw = Ok save
       /\ pokemon_in_party (active_block save) = Ok party_raw
       /\ pokemon_in_storage (active_block save) (expanded_block save) = Ok box_raw
       /\ GameDataManager = Ok dm
       /\ Forall2 (fun pkmn d => pokemon_to_dict dm pkmn = ([], Ok d))
            (omap (decoded party_parse) party_raw) (Json.party demo_result)
       /\ Forall2 (Forall2 (fun pkmn d => pokemon_to_dict dm pkmn = ([], Ok d)))
            (groups_of box_raw) (Json.boxes demo_result).
Proof.
  split; [exact demo_run|].
  exact (result_is_the_decoded_slots "demo.sav" _ demo_result demo_run).
Defined.

(** Six party slots and thirty-one box slots, three records in all. *)
Lemma total_counts_decoded_slots_witness :
  parse_sav_file "demo.sav" = ((parse_sav_file "demo.sav").1, Ok demo_result)
  /\ Json.total_pokemon demo_result <= 6 + 31.
Proof.
  split; [exact demo_run|].
  destruct (total_counts_decoded_slots "demo.sav" _ demo_result demo_run)
    as (raw & save & party_raw & box_raw & _ & _ & Hparty & Hbox & _ & Hle).
  injection Hparty as <-. injection Hbox as <-.
  vm_compute in Hle. exact Hle.
Defined.

Lemma unreadable_file_is_fatal_witness :
  read_file "missing.sav" = Raise FileNotFound
  /\ parse_sav_file "missing.sav"
     = ([MParsing "missing.sav"; MFatal FileNotFound], Raise FileNotFound).
Proof.
  assert (Hread : read_file "missing.sav" = Raise FileNotFound) by reflexivity.
  split; [exact Hread|].
  exact (unreadable_file_is_fatal "missing.sav" FileNotFound Hread).
Defined.



Lemma demo_party_listing :
  show_party (C:=world) (tt : @DataManager Error world)
    [pikachu_pokemon; bulbasaur_pokemon]
  = ((show_party (C:=world) (tt : @DataManager Error world)
        [pikachu_pokemon; bulbasaur_pokemon]).1, Ok tt).
Proof. vm_compute. reflexivity. Defined.

(** A party of two: eleven lines, none of them about Bulbasaur. *)
Lemma party_listing_shows_the_first_member_witness :
  show_party (C:=world) (tt : @DataManager Error world)
    [pikachu_pokemon; bulbasaur_pokemon]
  = ((show_party (C:=world) (tt : @DataManager Error world)
        [pikachu_pokemon; bulbasaur_pokemon]).1, Ok tt)
  /\ length (show_party (C:=world) (tt : @DataManager Error world)
               [pikachu_pokemon; bulbasaur_pokemon]).1 = 11.
Proof.
  split; [exact demo_party_listing|].
  destruct (party_listing_shows_the_first_member (C:=world) _ _ _ _
              demo_party_listing) as (_ & _ & Hlen).
  exact Hlen.
Defined.
End MoreExamples.

Section FaultExamples.
Import Faults.

(** Bulbasaur, species 1, is decoded from party slot 4 and is not known. *)
Lemma one_unknown_species_fails_the_parse_witness :
  read_file (Collaborators := one_species) "demo.sav" = Ok [1; 0; 0]%Z
  /\ SaveFile (Collaborators := one_species) [1; 0; 0]%Z = Ok [1; 0; 0]%Z
  /\ pokemon_in_party (Collaborators := one_species) tt
     = Ok (party_slots Demo.party_windows)
  /\ pokemon_in_storage (Collaborators := one_species) tt tt = Ok Demo.box_slots
  /\ GameDataManager (Collaborators := one_species) = Ok tt
  /\ (Demo.bulbasaur_pokemon
        ∈ omap (decoded (party_parse (Collaborators := one_species)))
            (party_slots Demo.party_windows)
      \/ Demo.bulbasaur_pokemon
           ∈ omap (decoded (box_parse (Collaborators := one_species)))
               Demo.box_slots)
  /\ get_species_name (Collaborators := one_species) tt 1 = Raise (KeyError 1)
  /\ exists t e', parse_sav_file (C := one_species) "demo.sav" = (t, Raise e').
Proof.
  assert (Hread : read_file (Collaborators := one_species) "demo.sav"
                  = Ok [1; 0; 0]%Z) by reflexivity.
  assert (Hsave : SaveFile (Collaborators := one_species) [1; 0; 0]%Z
                  = Ok [1; 0; 0]%Z) by reflexivity.
  assert (Hparty : pokemon_in_party (Collaborators := one_species) tt
                   = Ok (party_slots Demo.party_windows)) by reflexivity.
  assert (Hbox : pokemon_in_storage (Collaborators := one_species) tt tt
                 = Ok Demo.box_slots) by reflexivity.
  assert (Hdm : GameDataManager (Collaborators := one_species) = Ok tt)
    by reflexivity.
  assert (Hin : Demo.bulbasaur_pokemon
                  ∈ omap (decoded (party_parse (Collaborators := one_species)))
                      (party_slots Demo.party_windows)
                \/ Demo.bulbasaur_pokemon
                     ∈ omap (decoded (box_parse (Collaborators := one_species)))
                         Demo.box_slots).
  { left.
    assert (Heq : omap (decoded (party_parse (Collaborators := one_species)))
                    (party_slots Demo.party_windows)
                  = [Demo.pikachu_pokemon; Demo.bulbasaur_pokemon])
      by (vm_compute; reflexivity).
    rewrite Heq. apply elem_of_cons. right. apply elem_of_cons. by left. }
  assert (Hname : get_species_name (Collaborators := one_species) tt 1
                  = Raise (KeyError 1)) by reflexivity.
  repeat (split; [assumption|]).
  exact (one_unknown_species_fails_the_parse (C := one_species) "demo.sav"
           [1; 0; 0]%Z [1; 0; 0]%Z (party_slots Demo.party_windows)
           Demo.box_slots tt Demo.bulbasaur_pokemon (KeyError 1)
           Hread Hsave Hparty Hbox Hdm Hin Hname).
Defined.

Lemma late_failure_after_success_line_witness :
  read_file (Collaborators := no_tables) "demo.sav" = Ok [1; 0; 0]%Z
  /\ SaveFile (Collaborators := no_tables) [1; 0; 0]%Z = Ok [1; 0; 0]%Z
  /\ pokemon_in_party (Collaborators := no_tables) tt
     = Ok (party_slots Demo.party_windows)
  /\ pokemon_in_storage (Collaborators := no_tables) tt tt = Ok Demo.box_slots
  /\ GameDataManager (Collaborators := no_tables) = Raise NoTables
  /\ parse_sav_file (C := no_tables) "demo.sav"
     = ([MParsing "demo.sav"; MFileSize 3; MLoaded; MExtractParty; MPartySlots 6;
         MPartySlot 1 25 12; MPartyError 3 (Base (Demo.Decode Checksum));
         MPartySlot 4 1 5; MExtractBox; MBoxSlots 31; MBoxPokemon 2 25 12;
         MBoxError 3 (Base (Demo.Decode Checksum)); MBoxComplete 0 1;
         MSuccess; MSummary; MSummaryParty 2; MSummaryBox 1; MSummaryTotal 3;
         MFatal NoTables],
        Raise NoTables).
Proof.
  assert (Hread : read_file (Collaborators := no_tables) "demo.sav"
                  = Ok [1; 0; 0]%Z) by reflexivity.
  assert (Hsave : SaveFile (Collaborators := no_tables) [1; 0; 0]%Z
                  = Ok [1; 0; 0]%Z) by reflexivity.
  assert (Hparty : pokemon_in_party (Collaborators := no_tables) tt
                   = Ok (party_slots Demo.party_windows)) by reflexivity.
  assert (Hbox : pokemon_in_storage (Collaborators := no_tables) tt tt
                 = Ok Demo.box_slots) by reflexivity.
  assert (Hdm : GameDataManager (Collaborators := no_tables) = Raise NoTables)
    by reflexivity.
  repeat (split; [assumption|]).
  rewrite (late_failure_after_success_line (C := no_tables) "demo.sav"
             [1; 0; 0]%Z [1; 0; 0]%Z (party_slots Demo.party_windows)
             Demo.box_slots NoTables Hread Hsave Hparty Hbox Hdm).
  vm_compute. reflexivity.
Defined.
End FaultExamples.
